(** * whitelist-server: the license service over an abstract SQL store

    A shallow embedding of the gRPC service of [internal/service]
    (both revisions present in the sources) together with the few SQL
    statements it sends to the database.

    - The database is a record of three tables, each a list of rows.
    - A handler is a program in a small free monad [Prog]: it either
      returns, or sends one SQL statement and continues with the reply.
      Statements are the only atomic steps, as in the Go code, where
      every [db.Exec] / [db.QueryRow] is one autocommit statement.
    - [run] executes a program sequentially; [run_schedule] interleaves
      a pool of programs statement by statement.
    - What the code cannot control (the clock read by [NOW()], a failing
      database round trip, the identifier drawn by the table default) is
      read from an oracle indexed by the number of statements executed so
      far. *)

From Stdlib Require Import ZArith List String Bool Lia Arith.
Import ListNotations.

Local Open Scope string_scope.
Local Open Scope Z_scope.

(** ** gRPC statuses and Go results *)

Inductive Code : Type :=
| InvalidArgument
| Unauthenticated
| PermissionDenied
| Internal.

Record Status : Type := mkStatus { code : Code; message : string }.

(** Go's [(value, error)] pair with the usual discipline
    "exactly one of them is meaningful". *)
Inductive Result (A : Type) : Type :=
| Ok (a : A)
| Err (st : Status).
Arguments Ok {A} a.
Arguments Err {A} st.

Definition is_ok {A} (r : Result A) : bool :=
  match r with Ok _ => true | Err _ => false end.

Definition err_code {A} (r : Result A) : option Code :=
  match r with Ok _ => None | Err st => Some (code st) end.

(** ** Transport metadata and process environment *)

(** [metadata.MD] is a [map[string][]string]. *)
Definition MD : Type := list (string * list string).

(** [md.Get(k)]: the values stored under [k], the empty slice if none. *)
Fixpoint md_get (md : MD) (k : string) : list string :=
  match md with
  | [] => []
  | (k', vs) :: rest => if String.eqb k' k then vs else md_get rest k
  end.

(** A [context.Context], as far as the handlers look at it:
    [metadata.FromIncomingContext] yields the metadata or [ok = false]. *)
Record Context : Type := mkContext { FromIncomingContext : option MD }.

(** The process environment; [os.Getenv] yields the empty string for a
    variable that is not set. *)
Definition Environ : Type := list (string * string).

Fixpoint Getenv (env : Environ) (name : string) : string :=
  match env with
  | [] => ""
  | (n, v) :: rest => if String.eqb n name then v else Getenv rest name
  end.

(** ** The persistent store *)

(** Timestamps are counted in microseconds, the resolution of the
    database's clock. *)
Definition Time : Type := Z.
Definition second : Z := 1000000.

Record ApiKey : Type := mkApiKey {
  key : string;
  key_expires_at : option Time          (* NULL = never expires *)
}.

Record AccessToken : Type := mkAccessToken {
  token : string;
  created_at : Time;
  expires_at : Time
}.

Record License : Type := mkLicense {
  license_key : string;
  product_id : string;
  is_active : bool;
  hwid : option string                  (* nullable column *)
}.

Record Store : Type := mkStore {
  api_keys : list ApiKey;
  access_tokens : list AccessToken;
  licenses : list License
}.

(** Modelled from the spec: the column defaults of [access_tokens] (the
    table's DDL is not part of the sources): a token lives 30 seconds
    from its creation. *)
Definition token_ttl : Z := 30 * second.

(** Go's [sql.NullString]. *)
Record NullString : Type := mkNullString { String_ : string; Valid : bool }.

(** What [Scan] stores into a [sql.NullString] for a nullable column. *)
Definition scan_null (c : option string) : NullString :=
  match c with
  | Some s => mkNullString s true
  | None => mkNullString "" false
  end.

(** Reply of [Exec], and of a [QueryRow(..).Scan(..)] that always has a row. *)
Inductive SqlResult (A : Type) : Type :=
| SqlOk (a : A)
| SqlErr (e : string).
Arguments SqlOk {A} a.
Arguments SqlErr {A} e.

(** Reply of [QueryRow(..).Scan(..)] for a query that may have no row. *)
Inductive RowResult (A : Type) : Type :=
| Row (a : A)
| ErrNoRows
| RowErr (e : string).
Arguments Row {A} a.
Arguments ErrNoRows {A}.
Arguments RowErr {A} e.

(** The SQL statements of the service, indexed by the type of their reply. *)
Inductive Stmt : Type -> Type :=
(* DELETE FROM access_tokens WHERE expires_at < NOW() *)
| SweepTokens : Stmt (SqlResult Z)
(* SELECT EXISTS(SELECT 1 FROM api_keys WHERE key = $1
                 AND (expires_at IS NULL OR expires_at > NOW())) *)
| ApiKeyExists (k : string) : Stmt (SqlResult bool)
(* INSERT INTO access_tokens DEFAULT VALUES RETURNING token *)
| InsertToken : Stmt (SqlResult string)
(* DELETE FROM access_tokens WHERE token = $1 AND expires_at > NOW() *)
| DeleteToken (t : string) : Stmt (SqlResult Z)
(* SELECT is_active, hwid FROM licenses
   WHERE license_key = $1 AND product_id = $2 *)
| SelectLicense (lk pid : string) : Stmt (RowResult (bool * NullString))
(* UPDATE licenses SET hwid = $1 WHERE license_key = $2 *)
| UpdateHwid (h lk : string) : Stmt (SqlResult Z)
(* INSERT INTO licenses (license_key, product_id, is_active)
   VALUES ($1, $2, $3)
   ON CONFLICT (license_key) DO UPDATE SET product_id = $2, is_active = $3 *)
| UpsertLicense (lk pid : string) (active : bool) : Stmt (SqlResult Z)
(* DELETE FROM licenses WHERE license_key = $1 *)
| DeleteLicenseRow (lk : string) : Stmt (SqlResult Z).

Inductive Table : Type := TApiKeys | TAccessTokens | TLicenses.

Definition table_of {R} (q : Stmt R) : Table :=
  match q with
  | SweepTokens | InsertToken | DeleteToken _ => TAccessTokens
  | ApiKeyExists _ => TApiKeys
  | SelectLicense _ _ | UpdateHwid _ _ | UpsertLicense _ _ _
  | DeleteLicenseRow _ => TLicenses
  end.

(** What one statement finds when it reaches the database. *)
Record Env : Type := mkEnv {
  now : Time;                 (* the value of NOW() *)
  fault : option string;      (* the round trip fails with this error *)
  uuid : string               (* the identifier the token default draws *)
}.

(** *** Row predicates of the WHERE clauses *)

Definition api_key_valid (k : string) (t : Time) (r : ApiKey) : bool :=
  String.eqb (key r) k &&
  match key_expires_at r with
  | None => true
  | Some e => t <? e
  end.

Definition token_live (tok : string) (t : Time) (r : AccessToken) : bool :=
  String.eqb (token r) tok && (t <? expires_at r).

Definition token_expired (t : Time) (r : AccessToken) : bool :=
  expires_at r <? t.

Definition has_key (lk : string) (r : License) : bool :=
  String.eqb (license_key r) lk.

Definition license_matches (lk pid : string) (r : License) : bool :=
  String.eqb (license_key r) lk && String.eqb (product_id r) pid.

Definition rows {A} (p : A -> bool) (l : list A) : Z :=
  Z.of_nat (List.length (filter p l)).

Definition set_hwid (h lk : string) (r : License) : License :=
  if has_key lk r
  then mkLicense (license_key r) (product_id r) (is_active r) (Some h)
  else r.

Definition overwrite (lk pid : string) (active : bool) (r : License) : License :=
  if has_key lk r
  then mkLicense (license_key r) pid active (hwid r)
  else r.

Definition with_tokens (s : Store) (l : list AccessToken) : Store :=
  mkStore (api_keys s) l (licenses s).

Definition with_licenses (s : Store) (l : list License) : Store :=
  mkStore (api_keys s) (access_tokens s) l.

(** Modelled from the spec: [access_tokens.token] is a unique key and the
    row defaults are a drawn identifier, the current time and a 30 second
    expiry (the table's DDL is not part of the sources). A colliding
    identifier is rejected by the unique key. *)
Definition insert_token (e : Env) (s : Store) : SqlResult string * Store :=
  if existsb (fun r => String.eqb (token r) (uuid e)) (access_tokens s)
  then (SqlErr "duplicate key value violates unique constraint", s)
  else (SqlOk (uuid e),
        with_tokens s (access_tokens s ++
                       [mkAccessToken (uuid e) (now e) (now e + token_ttl)])).

Definition upsert_license (lk pid : string) (active : bool) (s : Store)
  : SqlResult Z * Store :=
  if existsb (has_key lk) (licenses s)
  then (SqlOk 1, with_licenses s (map (overwrite lk pid active) (licenses s)))
  else (SqlOk 1, with_licenses s (licenses s ++ [mkLicense lk pid active None])).

(** The reply a failed round trip gives, per reply type. *)
Definition failed {R} (q : Stmt R) (e : string) : R :=
  match q in Stmt R return R with
  | SweepTokens => SqlErr e
  | ApiKeyExists _ => SqlErr e
  | InsertToken => SqlErr e
  | DeleteToken _ => SqlErr e
  | SelectLicense _ _ => RowErr e
  | UpdateHwid _ _ => SqlErr e
  | UpsertLicense _ _ _ => SqlErr e
  | DeleteLicenseRow _ => SqlErr e
  end.

(** One statement against the store, when the round trip succeeds. *)
Definition perform {R} (q : Stmt R) (e : Env) (s : Store) : R * Store :=
  match q in Stmt R return R * Store with
  | SweepTokens =>
      (SqlOk (rows (token_expired (now e)) (access_tokens s)),
       with_tokens s
         (filter (fun r => negb (token_expired (now e) r)) (access_tokens s)))
  | ApiKeyExists k =>
      (SqlOk (existsb (api_key_valid k (now e)) (api_keys s)), s)
  | InsertToken => insert_token e s
  | DeleteToken t =>
      (SqlOk (rows (token_live t (now e)) (access_tokens s)),
       with_tokens s
         (filter (fun r => negb (token_live t (now e) r)) (access_tokens s)))
  | SelectLicense lk pid =>
      (match find (license_matches lk pid) (licenses s) with
       | Some r => Row (is_active r, scan_null (hwid r))
       | None => ErrNoRows
       end, s)
  | UpdateHwid h lk =>
      (SqlOk (rows (has_key lk) (licenses s)),
       with_licenses s (map (set_hwid h lk) (licenses s)))
  | UpsertLicense lk pid active => upsert_license lk pid active s
  | DeleteLicenseRow lk =>
      (SqlOk (rows (has_key lk) (licenses s)),
       with_licenses s (filter (fun r => negb (has_key lk r)) (licenses s)))
  end.

(** One statement against the store: a failed round trip changes nothing. *)
Definition exec {R} (q : Stmt R) (e : Env) (s : Store) : R * Store :=
  match fault e with
  | Some msg => (failed q msg, s)
  | None => perform q e s
  end.

(** ** Programs *)

Inductive Prog (A : Type) : Type :=
| Ret (a : A)
| Do (R : Type) (q : Stmt R) (k : R -> Prog A).
Arguments Ret {A} a.
Arguments Do {A R} q k.

Fixpoint bind {A B} (p : Prog A) (f : A -> Prog B) : Prog B :=
  match p with
  | Ret a => f a
  | Do q k => Do q (fun r => bind (k r) f)
  end.

Notation "x <- p ;; f" := (bind p (fun x => f))
  (at level 61, p at next level, right associativity).

(** An executed statement, remembered in order of execution. *)
Definition Event : Type := { R : Type & Stmt R }.
Definition event {R} (q : Stmt R) : Event := existT Stmt R q.
Definition event_table (ev : Event) : Table := table_of (projT2 ev).

Definition on_licenses (ev : Event) : bool :=
  match event_table ev with TLicenses => true | _ => false end.

Record World : Type := mkWorld {
  store : Store;
  trace : list Event
}.

(** The oracle: what the n-th statement ever executed finds. *)
Definition Oracle : Type := nat -> Env.

Definition tick (w : Oracle) (wd : World) : Env := w (List.length (trace wd)).

Definition step {R} (w : Oracle) (q : Stmt R) (wd : World) : R * World :=
  let '(r, s') := exec q (tick w wd) (store wd) in
  (r, mkWorld s' (trace wd ++ [event q])).

Fixpoint run {A} (w : Oracle) (p : Prog A) (wd : World) : A * World :=
  match p with
  | Ret a => (a, wd)
  | Do q k => let '(r, wd') := step w q wd in run w (k r) wd'
  end.

(** ** Messages of the protocol (package [pb]) *)

Module GetTokenRequest.
Record t : Type := mk { ApiKey : string }.
End GetTokenRequest.

Module AuthTokenResponse.
Record t : Type := mk { Token : string; ExpiresInSeconds : Z }.
End AuthTokenResponse.

Module ValidateRequest.
Record t : Type := mk { LicenseKey : string; ProductId : string; Hwid : string }.
End ValidateRequest.

Module ValidateResponse.
Record t : Type := mk { Valid : bool; Message : string }.
End ValidateResponse.

Module UpdateLicenseRequest.
Record t : Type :=
    mk { LicenseKey : string; ProductId : string; IsActive : bool }.
End UpdateLicenseRequest.

Module DeleteLicenseRequest.
Record t : Type := mk { LicenseKey : string }.
End DeleteLicenseRequest.

(** [emptypb.Empty] *)
Definition Empty : Type := unit.

Definition status_Error (c : Code) (msg : string) : Status := mkStatus c msg.

(** [status.Errorf(c, prefix + "%v", err)] *)
Definition status_Errorf (c : Code) (prefix err : string) : Status :=
  mkStatus c (prefix ++ err).

(** ** The service with the API key check (the later revision) *)

Module V2.
Section Service.

  (** The process environment the service runs in. *)
Variable environ : Environ.

  (** One pass of the loop of [cleanupExpiredTokens]: the error, if any,
      is only logged. *)
Definition cleanupTick : Prog unit :=
    Do SweepTokens (fun _ => Ret tt).

Definition checkAdmin (ctx : Context) : option Status :=
    match FromIncomingContext ctx with
    | None => Some (status_Error Unauthenticated "metadata missing")
    | Some md =>
        match md_get md "x-admin-secret" with
        | [] => Some (status_Error PermissionDenied "invalid admin secret")
        | v0 :: _ =>
            if negb (String.eqb v0 (Getenv environ "ADMIN_SECRET"))
            then Some (status_Error PermissionDenied "invalid admin secret")
            else None
        end
    end.

Definition GetAuthToken (ctx : Context) (req : GetTokenRequest.t)
    : Prog (Result AuthTokenResponse.t) :=
    if String.eqb (GetTokenRequest.ApiKey req) ""
    then Ret (Err (status_Error InvalidArgument "API Key required"))
    else
      Do (ApiKeyExists (GetTokenRequest.ApiKey req)) (fun res =>
        match res with
        | SqlErr e => Ret (Err (status_Errorf Internal "DB Check Failed: " e))
        | SqlOk exists_ =>
            if negb exists_
            then Ret (Err (status_Error Unauthenticated
                             "Invalid or Expired API Key"))
            else
              Do InsertToken (fun res =>
                match res with
                | SqlErr e =>
                    Ret (Err (status_Errorf Internal
                                "failed to generate token: " e))
                | SqlOk token =>
                    Ret (Ok (AuthTokenResponse.mk token 30))
                end)
        end).

  (** The "Validate & Burn Token" step of [ValidateLicense] (the [Exec]
      of the conditional delete and the test of [RowsAffected]), which
      the specification calls RedeemToken. *)
Definition RedeemToken (tok : string) : Prog (Result unit) :=
    Do (DeleteToken tok) (fun res =>
      match res with
      | SqlErr e => Ret (Err (status_Errorf Internal "db error: " e))
      | SqlOk rowsAffected =>
          if rowsAffected =? 0
          then Ret (Err (status_Error Unauthenticated
                           "invalid or expired access token"))
          else Ret (Ok tt)
      end).

  (** The "Validate License" part of [ValidateLicense], after the token
      was burned. *)
Definition checkLicense (req : ValidateRequest.t)
    : Prog (Result ValidateResponse.t) :=
    Do (SelectLicense (ValidateRequest.LicenseKey req)
                      (ValidateRequest.ProductId req)) (fun res =>
      match res with
      | ErrNoRows => Ret (Ok (ValidateResponse.mk false "License not found"))
      | RowErr e => Ret (Err (status_Errorf Internal "db error: " e))
      | Row (isActive, storedHwid) =>
          if negb isActive
          then Ret (Ok (ValidateResponse.mk false "License is suspended"))
          else
            if negb (String.eqb (ValidateRequest.Hwid req) "")
            then
              if negb (Valid storedHwid) || String.eqb (String_ storedHwid) ""
              then
                Do (UpdateHwid (ValidateRequest.Hwid req)
                               (ValidateRequest.LicenseKey req))
                   (fun _ => Ret (Ok (ValidateResponse.mk true "Authenticated")))
              else
                if negb (String.eqb (String_ storedHwid)
                                    (ValidateRequest.Hwid req))
                then Ret (Ok (ValidateResponse.mk false "HWID mismatch"))
                else Ret (Ok (ValidateResponse.mk true "Authenticated"))
            else Ret (Ok (ValidateResponse.mk true "Authenticated"))
      end).

Definition ValidateLicense (ctx : Context) (req : ValidateRequest.t)
    : Prog (Result ValidateResponse.t) :=
    match FromIncomingContext ctx with
    | None => Ret (Err (status_Error Unauthenticated "no metadata"))
    | Some md =>
        match md_get md "x-access-token" with
        | [] => Ret (Err (status_Error Unauthenticated
                            "missing x-access-token header"))
        | tokens0 :: _ =>
            burned <- RedeemToken tokens0 ;;
            match burned with
            | Err st => Ret (Err st)
            | Ok _ => checkLicense req
            end
        end
    end.

Definition UpdateLicense (ctx : Context) (req : UpdateLicenseRequest.t)
    : Prog (Result Empty) :=
    match checkAdmin ctx with
    | Some err => Ret (Err err)
    | None =>
        Do (UpsertLicense (UpdateLicenseRequest.LicenseKey req)
                          (UpdateLicenseRequest.ProductId req)
                          (UpdateLicenseRequest.IsActive req)) (fun res =>
          match res with
          | SqlErr e => Ret (Err (status_Errorf Internal "upsert failed: " e))
          | SqlOk _ => Ret (Ok tt)
          end)
    end.

Definition DeleteLicense (ctx : Context) (req : DeleteLicenseRequest.t)
    : Prog (Result Empty) :=
    match checkAdmin ctx with
    | Some err => Ret (Err err)
    | None =>
        Do (DeleteLicenseRow (DeleteLicenseRequest.LicenseKey req)) (fun res =>
          match res with
          | SqlErr e => Ret (Err (status_Errorf Internal "delete failed: " e))
          | SqlOk _ => Ret (Ok tt)
          end)
    end.

End Service.
End V2.

(** ** The service without the API key check (the earlier revision) *)

Module V1.
Section Service.

Variable environ : Environ.

Definition checkAdmin (ctx : Context) : option Status :=
    match FromIncomingContext ctx with
    | None => Some (status_Error Unauthenticated "metadata missing")
    | Some md =>
        match md_get md "x-admin-secret" with
        | [] => Some (status_Error PermissionDenied "invalid admin secret")
        | v0 :: _ =>
            if negb (String.eqb v0 (Getenv environ "ADMIN_SECRET"))
            then Some (status_Error PermissionDenied "invalid admin secret")
            else None
        end
    end.

Definition GetAuthToken (ctx : Context) (_ : Empty)
    : Prog (Result AuthTokenResponse.t) :=
    Do InsertToken (fun res =>
      match res with
      | SqlErr e =>
          Ret (Err (status_Errorf Internal "failed to generate token: " e))
      | SqlOk token => Ret (Ok (AuthTokenResponse.mk token 30))
      end).

  (** Step A of [ValidateLicense]: the one-time use of the access token. *)
Definition RedeemToken (accessToken : string) : Prog (Result unit) :=
    Do (DeleteToken accessToken) (fun res =>
      match res with
      | SqlErr e => Ret (Err (status_Errorf Internal "db error: " e))
      | SqlOk rowsAffected =>
          if rowsAffected =? 0
          then Ret (Err (status_Error Unauthenticated
                           "invalid or expired access token"))
          else Ret (Ok tt)
      end).

  (** Step B of [ValidateLicense]: the license key. *)
Definition checkLicense (req : ValidateRequest.t)
    : Prog (Result ValidateResponse.t) :=
    Do (SelectLicense (ValidateRequest.LicenseKey req)
                      (ValidateRequest.ProductId req)) (fun res =>
      match res with
      | ErrNoRows => Ret (Ok (ValidateResponse.mk false "License not found"))
      | RowErr e => Ret (Err (status_Errorf Internal "db error: " e))
      | Row (isActive, storedHwid) =>
          if negb isActive
          then Ret (Ok (ValidateResponse.mk false
                          "License is banned or inactive"))
          else
            if negb (String.eqb (ValidateRequest.Hwid req) "")
            then
              if negb (Valid storedHwid) || String.eqb (String_ storedHwid) ""
              then
                Do (UpdateHwid (ValidateRequest.Hwid req)
                               (ValidateRequest.LicenseKey req))
                   (fun _ => Ret (Ok (ValidateResponse.mk true "Authenticated")))
              else
                if negb (String.eqb (String_ storedHwid)
                                    (ValidateRequest.Hwid req))
                then Ret (Ok (ValidateResponse.mk false "HWID mismatch"))
                else Ret (Ok (ValidateResponse.mk true "Authenticated"))
            else Ret (Ok (ValidateResponse.mk true "Authenticated"))
      end).

Definition ValidateLicense (ctx : Context) (req : ValidateRequest.t)
    : Prog (Result ValidateResponse.t) :=
    match FromIncomingContext ctx with
    | None => Ret (Err (status_Error Unauthenticated "no metadata"))
    | Some md =>
        match md_get md "x-access-token" with
        | [] => Ret (Err (status_Error Unauthenticated
                            "missing x-access-token header"))
        | accessToken :: _ =>
            burned <- RedeemToken accessToken ;;
            match burned with
            | Err st => Ret (Err st)
            | Ok _ => checkLicense req
            end
        end
    end.

Definition UpdateLicense (ctx : Context) (req : UpdateLicenseRequest.t)
    : Prog (Result Empty) :=
    match checkAdmin ctx with
    | Some err => Ret (Err err)
    | None =>
        Do (UpsertLicense (UpdateLicenseRequest.LicenseKey req)
                          (UpdateLicenseRequest.ProductId req)
                          (UpdateLicenseRequest.IsActive req)) (fun res =>
          match res with
          | SqlErr e => Ret (Err (status_Errorf Internal "failed to upsert: " e))
          | SqlOk _ => Ret (Ok tt)
          end)
    end.

Definition DeleteLicense (ctx : Context) (req : DeleteLicenseRequest.t)
    : Prog (Result Empty) :=
    match checkAdmin ctx with
    | Some err => Ret (Err err)
    | None =>
        Do (DeleteLicenseRow (DeleteLicenseRequest.LicenseKey req)) (fun res =>
          match res with
          | SqlErr e => Ret (Err (status_Errorf Internal "failed to delete: " e))
          | SqlOk _ => Ret (Ok tt)
          end)
    end.

End Service.
End V1.

(** ** Concurrent requests

    Requests are served concurrently and share nothing but the store:
    a pool of running handlers advances by letting one of them send its
    next statement. There is no other step, in particular no lock. *)

Fixpoint set_nth {A} (i : nat) (x : A) (l : list A) : list A :=
  match l, i with
  | [], _ => []
  | _ :: l', O => x :: l'
  | y :: l', S i' => y :: set_nth i' x l'
  end.

Definition step_thread {A} (w : Oracle) (i : nat) (pool : list (Prog A))
  (wd : World) : list (Prog A) * World :=
  match nth_error pool i with
  | Some (Do q k) =>
      let '(r, wd') := step w q wd in (set_nth i (k r) pool, wd')
  | _ => (pool, wd)
  end.

Fixpoint run_schedule {A} (w : Oracle) (sched : list nat)
  (pool : list (Prog A)) (wd : World) : list (Prog A) * World :=
  match sched with
  | [] => (pool, wd)
  | i :: sched' =>
      let '(pool', wd') := step_thread w i pool wd in
      run_schedule w sched' pool' wd'
  end.

Definition returned {A} (p : Prog A) : option A :=
  match p with Ret a => Some a | Do _ _ => None end.

Definition all_returned {A} (pool : list (Prog A)) : bool :=
  forallb (fun p => match returned p with Some _ => true | None => false end)
          pool.

Definition succeeded {A} (p : Prog (Result A)) : bool :=
  match returned p with Some (Ok _) => true | _ => false end.

Definition failed_with {A} (c : Code) (p : Prog (Result A)) : bool :=
  match returned p with
  | Some (Err st) =>
      match code st, c with
      | InvalidArgument, InvalidArgument | Unauthenticated, Unauthenticated
      | PermissionDenied, PermissionDenied | Internal, Internal => true
      | _, _ => false
      end
  | _ => false
  end.

Definition count {A} (p : A -> bool) (l : list A) : nat :=
  List.length (filter p l).

(** ** Properties of stores, oracles and runs used in the statements *)

(** [access_tokens.token] is a unique key. *)
Definition unique_tokens (s : Store) : Prop :=
  NoDup (map token (access_tokens s)).

(** [licenses.license_key] is a unique key (the conflict target of the
    upsert). *)
Definition unique_license_keys (s : Store) : Prop :=
  NoDup (map license_key (licenses s)).

(** No round trip to the database fails. *)
Definition no_faults (w : Oracle) : Prop := forall n, fault (w n) = None.

(** The number of access token rows a run removed. *)
Definition tokens_removed (before after : World) : Z :=
  Z.of_nat (List.length (access_tokens (store before)))
  - Z.of_nat (List.length (access_tokens (store after))).

(** The statements a run added to the trace. *)
Definition new_events (before after : World) : list Event :=
  skipn (List.length (trace before)) (trace after).

(** The first license row with the given key. *)
Definition license_of (lk : string) (s : Store) : option License :=
  find (has_key lk) (licenses s).

(** The stored hardware identifier is NULL or the empty string. *)
Definition hwid_unset (r : License) : bool :=
  match hwid r with
  | None => true
  | Some h => String.eqb h ""
  end.

(** The token sent in the [x-access-token] header, if any: the first
    value of the header. *)
Definition header_token (ctx : Context) : option string :=
  match FromIncomingContext ctx with
  | None => None
  | Some md => hd_error (md_get md "x-access-token")
  end.

(** *** Comparing the two revisions *)

(** The one response on which the revisions of [ValidateLicense] differ. *)
Definition relabel (r : Result ValidateResponse.t) : Result ValidateResponse.t :=
  match r with
  | Ok resp =>
      if negb (ValidateResponse.Valid resp)
         && String.eqb (ValidateResponse.Message resp)
                       "License is banned or inactive"
      then Ok (ValidateResponse.mk false "License is suspended")
      else r
  | Err _ => r
  end.

(** Equal results, except for the text of an [Internal] status. *)
Definition same_but_internal_text {A} (r1 r2 : Result A) : Prop :=
  match r1, r2 with
  | Ok a, Ok b => a = b
  | Err s1, Err s2 =>
      code s1 = code s2 /\ (code s1 <> Internal -> message s1 = message s2)
  | _, _ => False
  end.

(** ** Auxiliary definitions of the proofs *)

Definition issued_row (e : Env) : AccessToken :=
  mkAccessToken (uuid e) (now e) (now e + token_ttl).

Definition token_taken (tok : string) (s : Store) : bool :=
  existsb (fun r => String.eqb (token r) tok) (access_tokens s).

Definition authenticated : Result ValidateResponse.t :=
  Ok (ValidateResponse.mk true "Authenticated").

Definition negative (msg : string) : Result ValidateResponse.t :=
  Ok (ValidateResponse.mk false msg).

(** The outcome of the license stage on the row the lookup found. *)
Definition verdict (suspended : string) (req : ValidateRequest.t) (r : License)
  : Result ValidateResponse.t :=
  if negb (is_active r) then negative suspended
  else if String.eqb (ValidateRequest.Hwid req) "" then authenticated
  else if hwid_unset r then authenticated
  else match hwid r with
       | Some h => if String.eqb h (ValidateRequest.Hwid req)
                   then authenticated else negative "HWID mismatch"
       | None => authenticated
       end.

(** The license stage sends the hwid update exactly in this case. *)
Definition locks (req : ValidateRequest.t) (r : License) : bool :=
  is_active r && negb (String.eqb (ValidateRequest.Hwid req) "") && hwid_unset r.

Definition license_stage (suspended : string) (w : Oracle)
  (req : ValidateRequest.t) (wd : World)
  : Result ValidateResponse.t * World :=
  let lk := ValidateRequest.LicenseKey req in
  let pid := ValidateRequest.ProductId req in
  let tr1 := (trace wd ++ [event (SelectLicense lk pid)])%list in
  match fault (tick w wd) with
  | Some e => (Err (status_Errorf Internal "db error: " e), mkWorld (store wd) tr1)
  | None =>
      match find (license_matches lk pid) (licenses (store wd)) with
      | None => (negative "License not found", mkWorld (store wd) tr1)
      | Some r =>
          if locks req r
          then
            (authenticated,
             mkWorld
               (match fault (w (S (List.length (trace wd)))) with
                | Some _ => store wd
                | None =>
                    with_licenses (store wd)
                      (map (set_hwid (ValidateRequest.Hwid req) lk)
                           (licenses (store wd)))
                end)
               (tr1 ++ [event (UpdateHwid (ValidateRequest.Hwid req) lk)]))
          else (verdict suspended req r, mkWorld (store wd) tr1)
      end
  end.

Definition off_licenses (evs : list Event) : bool :=
  forallb (fun ev => negb (on_licenses ev)) evs.

Definition no_token_insert (evs : list Event) : bool :=
  forallb (fun ev => match projT2 ev with InsertToken => false | _ => true end)
          evs.

(** A database whose third round trip fails. *)
Definition third_fails : Oracle :=
  fun n => mkEnv (Z.of_nat n * second)
                 (if Nat.eqb n 2%nat then Some "connection reset" else None)
                 "c0ffee".

Definition demo_store : Store :=
  mkStore [mkApiKey "valid-key" None]
          [mkAccessToken "t1" 0 token_ttl]
          [mkLicense "LIC-1" "PROD-A" true None;
           mkLicense "LIC-2" "PROD-A" false None].

Definition demo_world : World := mkWorld demo_store [].

Definition with_token (tok : string) : Context :=
  mkContext (Some [("x-access-token", [tok])]).

Definition calm : Oracle :=
  fun n => mkEnv (Z.of_nat n * second) None "c0ffee".

(** The states a redeeming caller goes through. *)
Inductive redeeming (tok : string) : Prog (Result unit) -> Prop :=
| redeeming_fresh : redeeming tok (V2.RedeemToken tok)
| redeeming_done (r : Result unit) : redeeming tok (Ret r).

Definition rows_with (tok : string) (s : Store) : nat :=
  count (fun r => String.eqb (token r) tok) (access_tokens s).

(** At most one redemption of a token succeeds, whatever the schedule,
    the clock and the failures of the store. *)
Definition at_most_one (tok : string) (pool : list (Prog (Result unit)))
  (wd : World) : Prop :=
  Forall (redeeming tok) pool
  /\ (count succeeded pool + rows_with tok (store wd) <= 1)%nat.

Definition unauthenticated_token : Status :=
  status_Error Unauthenticated "invalid or expired access token".

(** The states of a redeeming caller when the store never fails. *)
Inductive settled (tok : string) : Prog (Result unit) -> Prop :=
| settled_fresh : settled tok (V2.RedeemToken tok)
| settled_won : settled tok (Ret (Ok tt))
| settled_lost : settled tok (Ret (Err unauthenticated_token)).

(** The token has a row that is live at every time the oracle shows. *)
Definition stays_live (w : Oracle) (tok : string) (s : Store) : Prop :=
  exists r, In r (access_tokens s) /\ token r = tok
            /\ forall n, now (w n) < expires_at r.

Definition someone_wins (w : Oracle) (tok : string) (N : nat)
  (pool : list (Prog (Result unit))) (wd : World) : Prop :=
  List.length pool = N
  /\ Forall (settled tok) pool
  /\ (count succeeded pool = 0%nat ->
      Forall (eq (V2.RedeemToken tok)) pool /\ stays_live w tok (store wd)).

(** *** A small installation used to exercise the statements *)

(** A database that never fails and whose clock stands still. *)
Definition steady : Oracle :=
  fun _ => mkEnv (5 * second) None "c0ffee".

(** A database whose second round trip fails. *)
Definition second_fails : Oracle :=
  fun n => mkEnv (Z.of_nat n * second)
                 (if Nat.eqb n 1%nat then Some "connection reset" else None)
                 "c0ffee".

Definition lic1 : License := mkLicense "LIC-1" "PROD-A" true None.
Definition lic3 : License := mkLicense "LIC-3" "PROD-A" true (Some "HW-1").

Definition locked_store : Store :=
  mkStore [mkApiKey "valid-key" None]
          [mkAccessToken "t1" 0 token_ttl; mkAccessToken "t2" 0 token_ttl;
           mkAccessToken "t3" 0 token_ttl]
          [lic1; lic3].

Definition locked_world : World := mkWorld locked_store [].

Definition admin_environ : Environ := [("ADMIN_SECRET", "s3cret")].

Definition with_secret (values : list string) : Context :=
  mkContext (Some [("x-admin-secret", values)]).

(** ** The running service: request handlers and the sweeper *)

(** The first [ticks] iterations of the loop [for range ticker.C] of
    [cleanupExpiredTokens]: one sweep per tick, the error only logged. *)
Fixpoint cleanupExpiredTokens (ticks : nat) : Prog unit :=
  match ticks with
  | O => Ret tt
  | S n => _ <- V2.cleanupTick ;; cleanupExpiredTokens n
  end.

(** [NewWhitelistService] of the later revision starts the sweeper beside
    the request handlers: the next statement to reach the store is either
    the next one of some caller or the sweep of a tick. *)
Inductive Turn : Type :=
| Caller (i : nat)
| Sweeper.

Definition step_turn {A} (w : Oracle) (t : Turn) (pool : list (Prog A))
  (wd : World) : list (Prog A) * World :=
  match t with
  | Caller i => step_thread w i pool wd
  | Sweeper => (pool, snd (run w V2.cleanupTick wd))
  end.

Fixpoint run_service {A} (w : Oracle) (sched : list Turn)
  (pool : list (Prog A)) (wd : World) : list (Prog A) * World :=
  match sched with
  | [] => (pool, wd)
  | t :: sched' =>
      let '(pool', wd') := step_turn w t pool wd in
      run_service w sched' pool' wd'
  end.


(** ** The HTTP gateway ([cmd/server/main.go]) *)

Definition is_upper (c : Ascii.ascii) : bool :=
  (65 <=? Ascii.nat_of_ascii c)%nat && (Ascii.nat_of_ascii c <=? 90)%nat.

(** [c += 'a' - 'A'] on an upper case letter. *)
Definition lower_byte (c : Ascii.ascii) : Ascii.ascii :=
  if is_upper c then Ascii.ascii_of_nat (Ascii.nat_of_ascii c + 32) else c.

Fixpoint lower_bytes (s : string) : string :=
  match s with
  | EmptyString => EmptyString
  | String c s' => String (lower_byte c) (lower_bytes s')
  end.

(** No byte of the string is [utf8.RuneSelf] (0x80) or above. *)
Fixpoint isASCII (s : string) : bool :=
  match s with
  | EmptyString => true
  | String c s' => (Ascii.nat_of_ascii c <? 128)%nat && isASCII s'
  end.

(** Go's [net/http] types, as far as [corsMiddleware] uses them. *)
Record Request : Type := mkRequest { Method : string }.

Record ResponseWriter : Type := mkResponseWriter {
  Header : list (string * list string);   (* keyed by canonical names *)
  status : option Z                       (* the status line, once written *)
}.

(** [Header().Set(k, v)] for a key in canonical form: the entry of [k]
    becomes the single value [v]. *)
Fixpoint header_set (k v : string) (h : list (string * list string))
  : list (string * list string) :=
  match h with
  | [] => [(k, [v])]
  | (k', vs) :: rest =>
      if String.eqb k' k then (k, [v]) :: rest
      else (k', vs) :: header_set k v rest
  end.

Definition Header_Set (k v : string) (w : ResponseWriter) : ResponseWriter :=
  mkResponseWriter (header_set k v (Header w)) (status w).

(** [Header().Get(k)]: the first value under [k], the empty string if
    there is none. *)
Definition Header_Get (k : string) (w : ResponseWriter) : string :=
  hd "" (md_get (Header w) k).

(** [WriteHeader(code)]: the status line is written once; a further call
    is ignored. *)
Definition WriteHeader (c : Z) (w : ResponseWriter) : ResponseWriter :=
  match status w with
  | Some _ => w
  | None => mkResponseWriter (Header w) (Some c)
  end.

(** An [http.Handler], as the transformation of the response it makes. *)
Definition Handler : Type := ResponseWriter -> Request -> ResponseWriter.

Definition StatusOK : Z := 200.

Section Gateway.

(** [unicode.ToLower] mapped over a string that is not pure ASCII, and
    [runtime.DefaultHeaderMatcher]: library code the gateway calls. *)
Variable mapUnicodeToLower : string -> string.
Variable DefaultHeaderMatcher : string -> string * bool.

(** [strings.ToLower]: pure ASCII strings are lowered byte by byte, the
    others rune by rune. *)
Definition ToLower (s : string) : string :=
  if isASCII s then lower_bytes s else mapUnicodeToLower s.

Definition customMatcher (key : string) : string * bool :=
  if String.eqb (ToLower key) "x-access-token" then (ToLower key, true)
  else if String.eqb (ToLower key) "x-admin-secret" then (ToLower key, true)
  else DefaultHeaderMatcher key.

End Gateway.

Definition corsMiddleware (h : Handler) : Handler :=
  fun w r =>
    let w := Header_Set "Access-Control-Allow-Origin" "*" w in
    let w := Header_Set "Access-Control-Allow-Methods"
                        "GET, POST, PUT, DELETE, OPTIONS" w in
    let w := Header_Set "Access-Control-Allow-Headers"
                        "Content-Type, x-access-token, x-admin-secret" w in
    if String.eqb (Method r) "OPTIONS"
    then WriteHeader StatusOK w
    else h w r.

(** The casings of a header name: [recase mask s] writes in upper case
    the letters of [s] at the positions the mask marks. *)
Definition is_lower (c : Ascii.ascii) : bool :=
  (97 <=? Ascii.nat_of_ascii c)%nat && (Ascii.nat_of_ascii c <=? 122)%nat.

Definition upper_byte (c : Ascii.ascii) : Ascii.ascii :=
  if is_lower c then Ascii.ascii_of_nat (Ascii.nat_of_ascii c - 32) else c.

Fixpoint recase (mask : list bool) (s : string) : string :=
  match s, mask with
  | EmptyString, _ => EmptyString
  | String c s', [] => String c s'
  | String c s', b :: mask' =>
      String (if b then upper_byte c else c) (recase mask' s')
  end.

(** The upper case positions of a string. *)
Fixpoint casing (s : string) : list bool :=
  match s with
  | EmptyString => []
  | String c s' => is_upper c :: casing s'
  end.

(** A pure ASCII string without upper case letters. *)
Fixpoint lower_name (s : string) : bool :=
  match s with
  | EmptyString => true
  | String c s' =>
      (Ascii.nat_of_ascii c <? 128)%nat && negb (is_upper c) && lower_name s'
  end.

(** A database that never fails, seen after the demo token has expired. *)
Definition late : Oracle :=
  fun _ => mkEnv (31 * second) None "c0ffee".

Definition t1_row : AccessToken := mkAccessToken "t1" 0 token_ttl.

(** * Proofs *)

(** ** Running programs *)

Lemma run_bind {A B} (w : Oracle) (p : Prog A) (f : A -> Prog B) (wd : World) :
  run w (bind p f) wd = let '(a, wd') := run w p wd in run w (f a) wd'.
Proof.
  revert wd. induction p as [a | R q k IH]; intros wd; simpl.
  - reflexivity.
  - destruct (step w q wd) as [r wd']. apply IH.
Qed.

Lemma step_ok {R} (w : Oracle) (q : Stmt R) (wd : World) :
  fault (tick w wd) = None ->
  step w q wd =
  (fst (perform q (tick w wd) (store wd)),
   mkWorld (snd (perform q (tick w wd) (store wd))) (trace wd ++ [event q])).
Proof.
  intros Hf. unfold step, exec. rewrite Hf.
  destruct (perform q (tick w wd) (store wd)); reflexivity.
Qed.

Lemma step_fault {R} (w : Oracle) (q : Stmt R) (wd : World) (e : string) :
  fault (tick w wd) = Some e ->
  step w q wd = (failed q e, mkWorld (store wd) (trace wd ++ [event q])).
Proof.
  intros Hf. unfold step, exec. rewrite Hf. reflexivity.
Qed.

Lemma tick_next (w : Oracle) (s : Store) (tr : list Event) (ev : Event) :
  tick w (mkWorld s (tr ++ [ev])) = w (S (List.length tr)).
Proof.
  unfold tick; simpl. rewrite length_app; simpl. f_equal. lia.
Qed.

Lemma new_events_app (wd : World) (s : Store) (evs : list Event) :
  new_events wd (mkWorld s (trace wd ++ evs)) = evs.
Proof.
  unfold new_events; simpl.
  rewrite skipn_app, skipn_all, Nat.sub_diag. reflexivity.
Qed.

(** ** Lists of rows *)

Lemma length_filter_negb {A} (p : A -> bool) (l : list A) :
  (List.length (filter p l)
   + List.length (filter (fun x => negb (p x)) l) = List.length l)%nat.
Proof.
  induction l as [| x l IH]; simpl; [reflexivity |].
  destruct (p x); simpl; lia.
Qed.

Lemma filter_none {A} (p : A -> bool) (l : list A) :
  filter p l = [] <-> rows p l = 0.
Proof.
  unfold rows. split.
  - intros ->. reflexivity.
  - destruct (filter p l); [reflexivity | simpl; lia].
Qed.

Lemma filter_negb_none {A} (p : A -> bool) (l : list A) :
  filter p l = [] -> filter (fun x => negb (p x)) l = l.
Proof.
  induction l as [| x l IH]; simpl; [reflexivity |].
  destruct (p x); simpl; [discriminate |].
  intros H. f_equal. auto.
Qed.

Lemma filter_filter_negb {A} (p : A -> bool) (l : list A) :
  filter p (filter (fun x => negb (p x)) l) = [].
Proof.
  induction l as [| x l IH]; simpl; [reflexivity |].
  destruct (p x) eqn:E; simpl; [assumption |].
  rewrite E. assumption.
Qed.

Lemma token_live_token (tok : string) (t : Time) (r : AccessToken) :
  token_live tok t r = true -> token r = tok.
Proof.
  unfold token_live. intros H. apply andb_prop in H as [H _].
  now apply String.eqb_eq.
Qed.

Lemma unique_live_le_1 (tok : string) (t : Time) (l : list AccessToken) :
  NoDup (map token l) ->
  (List.length (filter (token_live tok t) l) <= 1)%nat.
Proof.
  induction l as [| r l IH]; simpl; intros Hnd; [lia |].
  inversion Hnd as [| x xs Hnotin Hnd']; subst.
  destruct (token_live tok t r) eqn:E; simpl; [| auto].
  apply token_live_token in E.
  assert (Hnil : filter (token_live tok t) l = []).
  { destruct (filter (token_live tok t) l) as [| r' l'] eqn:F; [reflexivity |].
    exfalso. apply Hnotin.
    assert (Hin : In r' (filter (token_live tok t) l)) by (rewrite F; now left).
    apply filter_In in Hin as [Hin Hlive].
    apply token_live_token in Hlive. rewrite E, <- Hlive.
    now apply in_map. }
  rewrite Hnil. simpl. lia.
Qed.

Lemma unique_rows_live (tok : string) (t : Time) (s : Store) :
  unique_tokens s ->
  rows (token_live tok t) (access_tokens s) = 0
  \/ rows (token_live tok t) (access_tokens s) = 1.
Proof.
  intros U. unfold rows.
  pose proof (unique_live_le_1 tok t (access_tokens s) U). lia.
Qed.

(** ** The unique keys are invariants of the store *)

Lemma unique_after_filter {Row_} (keep : Row_ -> bool) (key_of : Row_ -> string)
  (table : list Row_) (U : NoDup (map key_of table)) :
  NoDup (map key_of (filter keep table)).
Proof.
  induction table as [| row table IH]; cbn in *; [exact U |].
  apply NoDup_cons_iff in U as [Hfresh Hrest].
  destruct (keep row); cbn; [| tauto].
  apply NoDup_cons_iff. split; [| tauto].
  contradict Hfresh.
  apply in_map_iff in Hfresh as (other & Hsame & Hin).
  apply filter_In in Hin as [Hin _].
  rewrite <- Hsame. now apply in_map.
Qed.

Lemma NoDup_map_snoc {A} (f : A -> string) (x : A) (l : list A) :
  existsb (fun r => String.eqb (f r) (f x)) l = false ->
  NoDup (map f l) -> NoDup (map f (l ++ [x])).
Proof.
  intros Hex Hnd. rewrite map_app. simpl.
  apply NoDup_app; [exact Hnd | constructor; [intros [] | constructor] |].
  intros y Hy [<- | []].
  apply in_map_iff in Hy as (z & Hz & Hin).
  assert (Ht : existsb (fun r => String.eqb (f r) (f x)) l = true).
  { apply existsb_exists. exists z. split; [exact Hin |].
    rewrite Hz. apply String.eqb_refl. }
  congruence.
Qed.

Lemma map_key_overwrite (lk pid : string) (a : bool) (l : list License) :
  map license_key (map (overwrite lk pid a) l) = map license_key l.
Proof.
  rewrite map_map. apply map_ext. intros r. unfold overwrite.
  destruct (has_key lk r); reflexivity.
Qed.

Lemma map_key_set_hwid (h lk : string) (l : list License) :
  map license_key (map (set_hwid h lk) l) = map license_key l.
Proof.
  rewrite map_map. apply map_ext. intros r. unfold set_hwid.
  destruct (has_key lk r); reflexivity.
Qed.

(** Every statement keeps [access_tokens.token] and
    [licenses.license_key] unique. *)
Lemma exec_keeps_unique_keys {R} (q : Stmt R) (e : Env) (s : Store) :
  unique_tokens s /\ unique_license_keys s ->
  unique_tokens (snd (exec q e s)) /\ unique_license_keys (snd (exec q e s)).
Proof.
  intros [Ut Ul]. unfold exec.
  destruct (fault e); [split; assumption |].
  unfold unique_tokens, unique_license_keys in *.
  destruct q; cbn [perform snd access_tokens licenses with_tokens with_licenses];
    try (split; assumption).
  - split; [now apply unique_after_filter | assumption].
  - unfold insert_token.
    destruct (existsb _ (access_tokens s)) eqn:E;
      cbn [snd access_tokens licenses with_tokens]; split; try assumption.
    now apply (NoDup_map_snoc token (mkAccessToken (uuid e) _ _)).
  - split; [now apply unique_after_filter | assumption].
  - split; [assumption | now rewrite map_key_set_hwid].
  - unfold upsert_license.
    destruct (existsb (has_key lk) (licenses s)) eqn:E;
      cbn [snd access_tokens licenses with_licenses]; split; try assumption.
    + now rewrite map_key_overwrite.
    + now apply (NoDup_map_snoc license_key (mkLicense lk pid active None)).
  - split; [assumption | now apply unique_after_filter].
Qed.

(** ** The token stage *)

Lemma RedeemToken_run (w : Oracle) (wd : World) (tok : string) :
  run w (V2.RedeemToken tok) wd =
  match fault (tick w wd) with
  | Some e =>
      (Err (status_Errorf Internal "db error: " e),
       mkWorld (store wd) (trace wd ++ [event (DeleteToken tok)]))
  | None =>
      (if rows (token_live tok (now (tick w wd))) (access_tokens (store wd)) =? 0
       then Err (status_Error Unauthenticated "invalid or expired access token")
       else Ok tt,
       mkWorld (with_tokens (store wd)
                  (filter (fun r => negb (token_live tok (now (tick w wd)) r))
                          (access_tokens (store wd))))
               (trace wd ++ [event (DeleteToken tok)]))
  end.
Proof.
  unfold V2.RedeemToken. cbn [run].
  destruct (fault (tick w wd)) as [e |] eqn:Hf.
  - rewrite (step_fault _ _ _ e Hf). reflexivity.
  - rewrite (step_ok _ _ _ Hf). cbn [perform fst snd].
    destruct (rows _ _ =? 0); reflexivity.
Qed.

Lemma tokens_removed_delete (wd : World) (tok : string) (t : Time)
  (tr : list Event) :
  tokens_removed wd
    (mkWorld (with_tokens (store wd)
                (filter (fun r => negb (token_live tok t r))
                        (access_tokens (store wd)))) tr)
  = rows (token_live tok t) (access_tokens (store wd)).
Proof.
  unfold tokens_removed, rows; simpl.
  pose proof (length_filter_negb (token_live tok t) (access_tokens (store wd))).
  lia.
Qed.

(** ** Issuing a token *)

Lemma GetAuthToken_run (w : Oracle) (wd : World) (ctx : Context)
  (req : GetTokenRequest.t) :
  let k := GetTokenRequest.ApiKey req in
  let e0 := tick w wd in
  let e1 := w (S (List.length (trace wd))) in
  let tr1 := (trace wd ++ [event (ApiKeyExists k)])%list in
  let tr2 := (tr1 ++ [event InsertToken])%list in
  run w (V2.GetAuthToken ctx req) wd =
  if String.eqb k "" then
    (Err (status_Error InvalidArgument "API Key required"), wd)
  else
    match fault e0 with
    | Some e =>
        (Err (status_Errorf Internal "DB Check Failed: " e),
         mkWorld (store wd) tr1)
    | None =>
        if negb (existsb (api_key_valid k (now e0)) (api_keys (store wd)))
        then (Err (status_Error Unauthenticated "Invalid or Expired API Key"),
              mkWorld (store wd) tr1)
        else
          match fault e1 with
          | Some e =>
              (Err (status_Errorf Internal "failed to generate token: " e),
               mkWorld (store wd) tr2)
          | None =>
              if token_taken (uuid e1) (store wd)
              then (Err (status_Errorf Internal "failed to generate token: "
                           "duplicate key value violates unique constraint"),
                    mkWorld (store wd) tr2)
              else (Ok (AuthTokenResponse.mk (uuid e1) 30),
                    mkWorld (with_tokens (store wd)
                               (access_tokens (store wd) ++ [issued_row e1]))
                            tr2)
          end
    end.
Proof.
  intros k e0 e1 tr1 tr2. unfold V2.GetAuthToken. fold k.
  destruct (String.eqb k ""); [reflexivity |].
  cbn [run].
  destruct (fault e0) as [e |] eqn:Hf0.
  - rewrite (step_fault _ _ _ e Hf0). reflexivity.
  - rewrite (step_ok _ _ _ Hf0). cbn [perform fst snd]. fold e0.
    destruct (existsb (api_key_valid k (now e0)) (api_keys (store wd)));
      [| reflexivity].
    cbn [negb run].
    assert (Ht : tick w (mkWorld (store wd) tr1) = e1)
      by (unfold tr1; apply tick_next).
    destruct (fault e1) as [e |] eqn:Hf1; rewrite <- Ht in Hf1.
    + rewrite (step_fault _ _ _ e Hf1). reflexivity.
    + rewrite (step_ok _ _ _ Hf1). rewrite Ht.
      cbn [perform store trace]. unfold insert_token, token_taken.
      destruct (existsb _ (access_tokens (store wd))); reflexivity.
Qed.

Lemma GetAuthToken_ok_inv (w : Oracle) (wd wd1 : World) (ctx : Context)
  (req : GetTokenRequest.t) (resp : AuthTokenResponse.t) :
  run w (V2.GetAuthToken ctx req) wd = (Ok resp, wd1) ->
  let e1 := w (S (List.length (trace wd))) in
  resp = AuthTokenResponse.mk (uuid e1) 30
  /\ token_taken (uuid e1) (store wd) = false
  /\ wd1 = mkWorld (with_tokens (store wd)
                      (access_tokens (store wd) ++ [issued_row e1]))
                   (trace wd ++ [event (ApiKeyExists (GetTokenRequest.ApiKey req));
                                 event InsertToken]).
Proof.
  intros H e1. rewrite GetAuthToken_run in H. fold e1 in H.
  destruct (String.eqb _ ""); [discriminate |].
  destruct (fault (tick w wd)); [discriminate |].
  destruct (negb _); [discriminate |].
  destruct (fault e1); [discriminate |].
  destruct (token_taken (uuid e1) (store wd)) eqn:T; [discriminate |].
  inversion H; subst. rewrite <- app_assoc. auto.
Qed.

Lemma not_taken_not_live (tok : string) (t : Time) (l : list AccessToken) :
  existsb (fun r => String.eqb (token r) tok) l = false ->
  filter (token_live tok t) l = [].
Proof.
  induction l as [| r l IH]; simpl; [reflexivity |].
  intros H. apply orb_false_elim in H as [H1 H2].
  unfold token_live at 1. rewrite H1. simpl. auto.
Qed.

Lemma not_taken_filter (tok : string) (p : AccessToken -> bool)
  (l : list AccessToken) :
  existsb (fun r => String.eqb (token r) tok) l = false ->
  existsb (fun r => String.eqb (token r) tok) (filter p l) = false.
Proof.
  induction l as [| r l IH]; simpl; [reflexivity |].
  intros H. apply orb_false_elim in H as [H1 H2].
  destruct (p r); simpl; [rewrite H1 |]; auto.
Qed.

(** [C1] The token stage of [ValidateLicense] sends exactly one
    statement, the conditional delete; when the round trip succeeds the
    rows it removes are exactly the rows with this token whose expiry is
    in the future; with [token] a unique key it succeeds if and only if
    exactly one row was removed, and a delete that removed no row fails
    with Unauthenticated. Consequently, after a successful
    [GetAuthToken], redeeming the issued token before its 30 seconds are
    over succeeds, and redeeming it a second time never succeeds and
    fails with Unauthenticated when that delete reaches the store. *)
Theorem C1_redeem_token :
  (forall (w : Oracle) (wd : World) (tok : string),
      unique_tokens (store wd) ->
      let e := tick w wd in
      let res := run w (V2.RedeemToken tok) wd in
      new_events wd (snd res) = [event (DeleteToken tok)]
      /\ (fault e = None ->
          store (snd res) =
          with_tokens (store wd)
            (filter (fun r => negb (token_live tok (now e) r))
                    (access_tokens (store wd))))
      /\ (is_ok (fst res) = true <-> tokens_removed wd (snd res) = 1)
      /\ (fault e = None -> tokens_removed wd (snd res) = 0 ->
          fst res =
          Err (status_Error Unauthenticated "invalid or expired access token")))
  /\
  (forall (w : Oracle) (wd wd1 : World) (ctx : Context)
          (req : GetTokenRequest.t) (resp : AuthTokenResponse.t),
      run w (V2.GetAuthToken ctx req) wd = (Ok resp, wd1) ->
      fault (tick w wd1) = None ->
      now (tick w wd1) < now (w (S (List.length (trace wd)))) + token_ttl ->
      let tok := AuthTokenResponse.Token resp in
      let first := run w (V2.RedeemToken tok) wd1 in
      let second := run w (V2.RedeemToken tok) (snd first) in
      fst first = Ok tt
      /\ is_ok (fst second) = false
      /\ (fault (tick w (snd first)) = None ->
          fst second =
          Err (status_Error Unauthenticated "invalid or expired access token"))).
Proof.
  split.
  - intros w wd tok U e res. subst res. rewrite RedeemToken_run. fold e.
    destruct (fault e) as [msg |] eqn:Hf.
    + cbn [fst snd]. rewrite new_events_app.
      repeat split; try discriminate.
      unfold tokens_removed; simpl. lia.
    + cbn [fst snd]. rewrite new_events_app, tokens_removed_delete.
      destruct (unique_rows_live tok (now e) (store wd) U) as [H | H];
        rewrite H; simpl; repeat split; auto; try discriminate; lia.
  - intros w wd wd1 ctx req resp Hrun Hf1 Hlt tok first second.
    apply GetAuthToken_ok_inv in Hrun as (-> & Hfresh & ->).
    set (e1 := w (S (List.length (trace wd)))) in *.
    set (wd1 := mkWorld _ _) in *.
    set (t2 := now (tick w wd1)) in *.
    subst tok. cbn [AuthTokenResponse.Token] in *.
    assert (Hold : filter (token_live (uuid e1) t2) (access_tokens (store wd)) = [])
      by (apply not_taken_not_live; exact Hfresh).
    assert (Hnew : token_live (uuid e1) t2 (issued_row e1) = true).
    { unfold token_live, issued_row; simpl. rewrite String.eqb_refl. simpl.
      apply Z.ltb_lt. exact Hlt. }
    assert (R1 : first =
                 (Ok tt,
                  mkWorld (with_tokens (store wd1)
                             (filter (fun r => negb (token_live (uuid e1) t2 r))
                                     (access_tokens (store wd))))
                          (trace wd1 ++ [event (DeleteToken (uuid e1))]))).
    { subst first. rewrite RedeemToken_run, Hf1. fold t2.
      unfold wd1 at 1 2. cbn [store access_tokens with_tokens].
      unfold rows. rewrite !filter_app, Hold. simpl. rewrite Hnew. simpl.
      rewrite filter_app. simpl. rewrite Hnew. simpl.
      rewrite app_nil_r. reflexivity. }
    subst second. rewrite R1. cbn [fst snd]. split; [reflexivity |].
    rewrite RedeemToken_run. cbn [store access_tokens with_tokens].
    assert (Hgone : forall t,
               rows (token_live (uuid e1) t)
                    (filter (fun r => negb (token_live (uuid e1) t2 r))
                            (access_tokens (store wd))) = 0).
    { intros t. apply filter_none. apply not_taken_not_live.
      apply not_taken_filter. exact Hfresh. }
    clear Hf1 R1.
    match goal with
    | |- context [fault (tick w ?x)] => destruct (fault (tick w x)) as [msg |]
    end; cbn [fst snd].
    + split; [reflexivity | discriminate].
    + rewrite Hgone. simpl. split; [reflexivity | auto].
Qed.

(** ** The license stage *)

Lemma scan_null_unset (r : License) :
  negb (Valid (scan_null (hwid r))) || String.eqb (String_ (scan_null (hwid r))) ""
  = hwid_unset r.
Proof.
  unfold hwid_unset. destruct (hwid r) as [h |]; reflexivity.
Qed.

Lemma checkLicense_run (w : Oracle) (req : ValidateRequest.t) (wd : World) :
  run w (V2.checkLicense req) wd = license_stage "License is suspended" w req wd.
Proof.
  unfold V2.checkLicense, license_stage. cbn [run].
  destruct (fault (tick w wd)) as [e |] eqn:Hf.
  - rewrite (step_fault _ _ _ e Hf). reflexivity.
  - rewrite (step_ok _ _ _ Hf). cbn [perform fst snd].
    destruct (find _ (licenses (store wd))) as [r |]; [| reflexivity].
    unfold locks, verdict.
    destruct (is_active r); [| reflexivity]. cbn [negb andb].
    destruct (String.eqb (ValidateRequest.Hwid req) ""); [reflexivity |].
    cbn [negb andb]. rewrite scan_null_unset.
    destruct (hwid_unset r) eqn:Hu.
    + cbn [run]. unfold step, exec. rewrite tick_next.
      destruct (fault (w (S (List.length (trace wd))))); reflexivity.
    + unfold hwid_unset in Hu.
      destruct (hwid r) as [h |]; [| discriminate]. cbn [scan_null String_].
      destruct (String.eqb h (ValidateRequest.Hwid req)); reflexivity.
Qed.

Lemma ValidateLicense_run (w : Oracle) (ctx : Context) (req : ValidateRequest.t)
  (wd : World) :
  run w (V2.ValidateLicense ctx req) wd =
  match FromIncomingContext ctx with
  | None => (Err (status_Error Unauthenticated "no metadata"), wd)
  | Some md =>
      match md_get md "x-access-token" with
      | [] => (Err (status_Error Unauthenticated "missing x-access-token header"),
               wd)
      | tok :: _ =>
          match run w (V2.RedeemToken tok) wd with
          | (Err st, wd') => (Err st, wd')
          | (Ok _, wd') => run w (V2.checkLicense req) wd'
          end
      end
  end.
Proof.
  unfold V2.ValidateLicense.
  destruct (FromIncomingContext ctx) as [md |]; [| reflexivity].
  destruct (md_get md "x-access-token") as [| tok rest]; [reflexivity |].
  rewrite run_bind.
  destruct (run w (V2.RedeemToken tok) wd) as [[u | st] wd']; reflexivity.
Qed.

Lemma header_token_some (ctx : Context) (tok : string) :
  header_token ctx = Some tok ->
  exists md rest,
    FromIncomingContext ctx = Some md
    /\ md_get md "x-access-token" = tok :: rest.
Proof.
  unfold header_token. destruct (FromIncomingContext ctx) as [md |];
    [| discriminate].
  destruct (md_get md "x-access-token") as [| t rest] eqn:E; [discriminate |].
  simpl. intros H; inversion H; subst. eauto.
Qed.

Lemma ValidateLicense_with_token (w : Oracle) (ctx : Context)
  (req : ValidateRequest.t) (wd : World) (tok : string) :
  header_token ctx = Some tok ->
  run w (V2.ValidateLicense ctx req) wd =
  match run w (V2.RedeemToken tok) wd with
  | (Err st, wd') => (Err st, wd')
  | (Ok _, wd') => run w (V2.checkLicense req) wd'
  end.
Proof.
  intros H. apply header_token_some in H as (md & rest & Hmd & Hget).
  rewrite ValidateLicense_run, Hmd, Hget. reflexivity.
Qed.

Lemma RedeemToken_ok_inv (w : Oracle) (wd : World) (tok : string) :
  fst (run w (V2.RedeemToken tok) wd) = Ok tt ->
  fault (tick w wd) = None
  /\ rows (token_live tok (now (tick w wd))) (access_tokens (store wd)) <> 0
  /\ run w (V2.RedeemToken tok) wd =
     (Ok tt,
      mkWorld (with_tokens (store wd)
                 (filter (fun r => negb (token_live tok (now (tick w wd)) r))
                         (access_tokens (store wd))))
              (trace wd ++ [event (DeleteToken tok)])).
Proof.
  rewrite RedeemToken_run.
  destruct (fault (tick w wd)); [discriminate |].
  destruct (rows _ _ =? 0) eqn:E; [discriminate |].
  intros _. apply Z.eqb_neq in E. auto.
Qed.

(** [C2] A call of [ValidateLicense] whose token is missing (no
    metadata, no header) or has no row with a future expiry (already
    redeemed, expired, never issued) never succeeds: it returns the error
    of the token stage unchanged, which is Unauthenticated whenever the
    delete reached the store; no statement on the licenses table is sent
    and the licenses table is left as it was. *)
Theorem C2_dead_token_stops_at_token_stage
  (w : Oracle) (wd : World) (ctx : Context) (req : ValidateRequest.t) :
  (forall tok, header_token ctx = Some tok ->
     rows (token_live tok (now (tick w wd))) (access_tokens (store wd)) = 0) ->
  let res := run w (V2.ValidateLicense ctx req) wd in
  is_ok (fst res) = false
  /\ (header_token ctx = None \/ fault (tick w wd) = None ->
      err_code (fst res) = Some Unauthenticated)
  /\ (forall tok st, header_token ctx = Some tok ->
        fst (run w (V2.RedeemToken tok) wd) = Err st -> fst res = Err st)
  /\ off_licenses (new_events wd (snd res)) = true
  /\ licenses (store (snd res)) = licenses (store wd).
Proof.
  intros Hdead res. subst res.
  destruct (header_token ctx) as [tok |] eqn:Ht.
  - specialize (Hdead tok eq_refl).
    rewrite (ValidateLicense_with_token _ _ _ _ _ Ht), RedeemToken_run, Hdead.
    destruct (fault (tick w wd)) as [e |] eqn:Hf; cbn [Z.eqb fst snd];
      rewrite new_events_app; repeat split; auto.
    + intros [H | H]; discriminate.
    + intros tok' st H HR. inversion H; subst.
      rewrite RedeemToken_run, Hf in HR. simpl in HR.
      inversion HR; reflexivity.
    + intros tok' st H HR. inversion H; subst.
      rewrite RedeemToken_run, Hf, Hdead in HR. simpl in HR.
      inversion HR; reflexivity.
  - rewrite ValidateLicense_run. unfold header_token in Ht.
    destruct (FromIncomingContext ctx) as [md |].
    + destruct (md_get md "x-access-token"); [| discriminate].
      cbn [fst snd]. unfold new_events. rewrite skipn_all.
      repeat split; auto; discriminate.
    + cbn [fst snd]. unfold new_events. rewrite skipn_all.
      repeat split; auto; discriminate.
Qed.

Lemma license_stage_tokens (sus : string) (w : Oracle) (req : ValidateRequest.t)
  (wd : World) :
  access_tokens (store (snd (license_stage sus w req wd)))
  = access_tokens (store wd)
  /\ no_token_insert (new_events wd (snd (license_stage sus w req wd))) = true.
Proof.
  unfold license_stage.
  destruct (fault (tick w wd)); cbn [snd store].
  - rewrite new_events_app. auto.
  - destruct (find _ _) as [r |]; cbn [snd store].
    + destruct (locks req r); cbn [snd store].
      * rewrite <- app_assoc, new_events_app.
        destruct (fault _); auto.
      * rewrite new_events_app. auto.
    + rewrite new_events_app. auto.
Qed.


Lemma live_later (tok : string) (t t' : Time) (l : list AccessToken) :
  t <= t' ->
  rows (token_live tok t')
       (filter (fun r => negb (token_live tok t r)) l) = 0.
Proof.
  intros Hle. apply filter_none.
  induction l as [| r l IH]; simpl; [reflexivity |].
  destruct (token_live tok t r) eqn:E; simpl; [exact IH |].
  rewrite IH.
  replace (token_live tok t' r) with false; [reflexivity |].
  symmetry. unfold token_live in *.
  destruct (String.eqb (token r) tok); [| reflexivity]. simpl in *.
  apply Z.ltb_ge. apply Z.ltb_ge in E. lia.
Qed.

Lemma ValidateLicense_after_burn (w : Oracle) (wd : World) (ctx : Context)
  (req : ValidateRequest.t) (tok : string) :
  header_token ctx = Some tok ->
  fst (run w (V2.RedeemToken tok) wd) = Ok tt ->
  run w (V2.ValidateLicense ctx req) wd =
  license_stage "License is suspended" w req
    (mkWorld (with_tokens (store wd)
                (filter (fun r => negb (token_live tok (now (tick w wd)) r))
                        (access_tokens (store wd))))
             (trace wd ++ [event (DeleteToken tok)])).
Proof.
  intros Ht Hok. apply RedeemToken_ok_inv in Hok as (_ & _ & Hrun).
  rewrite (ValidateLicense_with_token _ _ _ _ _ Ht), Hrun.
  apply checkLicense_run.
Qed.

Lemma new_events_from (tr : list Event) (s s' : Store) (evs : list Event) :
  new_events (mkWorld s tr) (mkWorld s' (tr ++ evs)) = evs.
Proof.
  apply (new_events_app (mkWorld s tr)).
Qed.

Lemma license_stage_new_events (sus : string) (w : Oracle)
  (req : ValidateRequest.t) (wd : World) (s : Store) (ev : Event) :
  new_events wd (snd (license_stage sus w req (mkWorld s (trace wd ++ [ev]))))
  = (ev :: new_events (mkWorld s (trace wd ++ [ev]))
             (snd (license_stage sus w req (mkWorld s (trace wd ++ [ev])))))%list.
Proof.
  unfold license_stage. cbn [trace store].
  destruct (fault _); cbn [snd].
  - rewrite new_events_from, <- app_assoc, new_events_app. reflexivity.
  - destruct (find _ _) as [r |]; cbn [snd].
    + destruct (locks req r); cbn [snd].
      * rewrite <- (app_assoc (trace wd ++ [ev])), new_events_from.
        rewrite <- app_assoc, new_events_app. reflexivity.
      * rewrite new_events_from, <- app_assoc, new_events_app. reflexivity.
    + rewrite new_events_from, <- app_assoc, new_events_app. reflexivity.
Qed.

(** [C9] Once the token stage of a [ValidateLicense] call has
    succeeded, the token rows it deleted stay deleted whatever the call
    returns: the access token table at the end of the call is the table
    after the delete, the token has no live row any more (then or later),
    and the call sends no insert into the token table. This holds in
    particular for the three negative answers, "License not found",
    a suspended license and "HWID mismatch". *)
Theorem C9_token_burned_whatever_the_outcome
  (w : Oracle) (wd : World) (ctx : Context) (req : ValidateRequest.t)
  (tok : string) :
  header_token ctx = Some tok ->
  fst (run w (V2.RedeemToken tok) wd) = Ok tt ->
  let res := run w (V2.ValidateLicense ctx req) wd in
  let t := now (tick w wd) in
  let found := find (license_matches (ValidateRequest.LicenseKey req)
                                     (ValidateRequest.ProductId req))
                    (licenses (store wd)) in
  access_tokens (store (snd res))
  = filter (fun r => negb (token_live tok t r)) (access_tokens (store wd))
  /\ tokens_removed wd (snd res) <> 0
  /\ (forall t', t <= t' ->
        rows (token_live tok t') (access_tokens (store (snd res))) = 0)
  /\ no_token_insert (new_events wd (snd res)) = true
  /\ (fault (w (S (List.length (trace wd)))) = None ->
      (found = None -> fst res = negative "License not found")
      /\ (forall r, found = Some r -> is_active r = false ->
            fst res = negative "License is suspended")
      /\ (forall r h, found = Some r -> is_active r = true ->
            hwid r = Some h -> h <> "" -> ValidateRequest.Hwid req <> "" ->
            h <> ValidateRequest.Hwid req ->
            fst res = negative "HWID mismatch")).
Proof.
  intros Ht Hok res t found.
  pose proof (RedeemToken_ok_inv _ _ _ Hok) as (_ & Hrows & _).
  subst res. rewrite (ValidateLicense_after_burn _ _ _ _ _ Ht Hok). fold t.
  set (wd1 := mkWorld _ (trace wd ++ [event (DeleteToken tok)])).
  destruct (license_stage_tokens "License is suspended" w req wd1) as [Hsame Hins].
  assert (Htok : access_tokens (store (snd (license_stage "License is suspended" w req wd1)))
                 = filter (fun r => negb (token_live tok t r))
                          (access_tokens (store wd)))
    by (rewrite Hsame; reflexivity).
  split; [exact Htok |].
  split.
  { unfold tokens_removed. rewrite Htok.
    pose proof (length_filter_negb (token_live tok t) (access_tokens (store wd))).
    fold t in Hrows. unfold rows in Hrows. lia. }
  split.
  { intros t' Hle. rewrite Htok. now apply live_later. }
  split.
  { unfold wd1. rewrite license_stage_new_events. fold wd1.
    cbn [no_token_insert forallb]. exact Hins. }
  intros Hf1. unfold license_stage.
  assert (Hf : fault (tick w wd1) = None)
    by (unfold wd1; rewrite tick_next; exact Hf1).
  rewrite Hf. cbn [store licenses with_tokens wd1]. fold found.
  repeat split.
  - intros ->. reflexivity.
  - intros r -> Hact. unfold locks, verdict. rewrite Hact. reflexivity.
  - intros r h -> Hact Hh Hne Hreq Hdiff. unfold locks, verdict, hwid_unset.
    rewrite Hact, Hh.
    apply String.eqb_neq in Hne, Hreq, Hdiff. rewrite Hne, Hreq, Hdiff.
    reflexivity.
Qed.

(** A token that passed the token stage once is dead for every later
    call: the second use fails at the token stage. *)
Lemma ValidateLicense_second_use (w : Oracle) (wd : World) (ctx : Context)
  (req req2 : ValidateRequest.t) (tok : string) :
  header_token ctx = Some tok ->
  fst (run w (V2.RedeemToken tok) wd) = Ok tt ->
  let wd' := snd (run w (V2.ValidateLicense ctx req) wd) in
  now (tick w wd) <= now (tick w wd') ->
  fault (tick w wd') = None ->
  fst (run w (V2.ValidateLicense ctx req2) wd') = Err unauthenticated_token.
Proof.
  intros Ht Hok wd' Hle Hf.
  assert (Hdead : rows (token_live tok (now (tick w wd')))
                       (access_tokens (store wd')) = 0).
  { subst wd'. rewrite (ValidateLicense_after_burn _ _ _ _ _ Ht Hok) in *.
    rewrite (proj1 (license_stage_tokens _ _ _ _)).
    cbn [store access_tokens with_tokens]. now apply live_later. }
  rewrite (ValidateLicense_with_token _ _ _ _ _ Ht), RedeemToken_run, Hf, Hdead.
  reflexivity.
Qed.

(** ** Hardware lock *)

Lemma find_map_stable {A} (p : A -> bool) (f : A -> A) (l : list A) :
  (forall x, p (f x) = p x) ->
  find p (map f l) = option_map f (find p l).
Proof.
  intros Hp. induction l as [| x l IH]; simpl; [reflexivity |].
  rewrite Hp. destruct (p x); [reflexivity | exact IH].
Qed.

Lemma license_matches_set_hwid (lk pid h k : string) (r : License) :
  license_matches lk pid (set_hwid h k r) = license_matches lk pid r.
Proof.
  unfold set_hwid. destruct (has_key k r); reflexivity.
Qed.

Lemma license_matches_has_key (lk pid : string) (r : License) :
  license_matches lk pid r = true -> has_key lk r = true.
Proof.
  unfold license_matches, has_key. intros H.
  now apply andb_prop in H as [H _].
Qed.

(** [C4] A [ValidateLicense] call that passes the token stage, finds an
    active license row and carries a non-empty hwid, all statements
    reaching the store: when the stored hwid is NULL or empty the row's
    hwid becomes the supplied one and the answer is valid; when the stored
    hwid equals the supplied one the answer is valid; when it differs the
    answer is "HWID mismatch" and the licenses are left as they were. *)
Theorem C4_hwid_lock
  (w : Oracle) (wd : World) (ctx : Context) (req : ValidateRequest.t)
  (tok : string) (r : License) :
  let lk := ValidateRequest.LicenseKey req in
  let pid := ValidateRequest.ProductId req in
  let h := ValidateRequest.Hwid req in
  let res := run w (V2.ValidateLicense ctx req) wd in
  header_token ctx = Some tok ->
  fst (run w (V2.RedeemToken tok) wd) = Ok tt ->
  fault (w (S (List.length (trace wd)))) = None ->
  fault (w (S (S (List.length (trace wd))))) = None ->
  find (license_matches lk pid) (licenses (store wd)) = Some r ->
  is_active r = true ->
  h <> "" ->
  (hwid_unset r = true ->
     fst res = authenticated
     /\ licenses (store (snd res)) = map (set_hwid h lk) (licenses (store wd))
     /\ find (license_matches lk pid) (licenses (store (snd res)))
        = Some (mkLicense (license_key r) (product_id r) true (Some h)))
  /\ (hwid r = Some h ->
     fst res = authenticated
     /\ licenses (store (snd res)) = licenses (store wd))
  /\ (hwid_unset r = false -> hwid r <> Some h ->
     fst res = negative "HWID mismatch"
     /\ licenses (store (snd res)) = licenses (store wd)).
Proof.
  intros lk pid h res Ht Hok Hf1 Hf2 Hfind Hact Hh.
  subst res. rewrite (ValidateLicense_after_burn _ _ _ _ _ Ht Hok).
  unfold license_stage. rewrite tick_next, Hf1.
  cbn [store licenses with_tokens trace].
  fold lk pid h. rewrite Hfind.
  rewrite length_app, Nat.add_comm. cbn [List.length Nat.add]. rewrite Hf2.
  apply String.eqb_neq in Hh.
  unfold locks, verdict. fold h. rewrite Hact, Hh. cbn [negb andb].
  repeat split.
  - rewrite H. reflexivity.
  - rewrite H. reflexivity.
  - rewrite H. cbn [snd store licenses with_licenses].
    rewrite find_map_stable by (intros; apply license_matches_set_hwid).
    rewrite Hfind. cbn [option_map]. unfold set_hwid.
    rewrite (license_matches_has_key _ _ _ (proj2 (find_some _ _ Hfind))).
    rewrite Hact. reflexivity.
  - unfold hwid_unset. rewrite H, Hh, String.eqb_refl. reflexivity.
  - unfold hwid_unset. rewrite H, Hh. reflexivity.
  - rewrite H. destruct (hwid r) as [h' |] eqn:E.
    + destruct (String.eqb h' h) eqn:E'; [| reflexivity].
      apply String.eqb_eq in E'. subst h'. contradiction.
    + unfold hwid_unset in H. rewrite E in H. discriminate.
  - rewrite H. reflexivity.
Qed.

(** ** Store errors in the license stage *)

(** [C5], as stated, fails: when the round trip of the hwid update
    fails, the call still answers valid. *)
Lemma C5_counterexample :
  let res := run third_fails
                 (V2.ValidateLicense (with_token "t1")
                    (ValidateRequest.mk "LIC-1" "PROD-A" "A"))
                 demo_world in
  new_events demo_world (snd res)
  = [event (DeleteToken "t1"); event (SelectLicense "LIC-1" "PROD-A");
     event (UpdateHwid "A" "LIC-1")]
  /\ fault (third_fails 2%nat) = Some "connection reset"
  /\ fst res = Ok (ValidateResponse.mk true "Authenticated")
  /\ licenses (store (snd res)) = licenses demo_store.
Proof.
  vm_compute. repeat split.
Qed.

(** [C5], amended. In a [ValidateLicense] call that passed the token
    stage, a store error of the license lookup is returned as an Internal
    error, never as an answer; a store error of the hwid update is
    discarded: the call answers valid and the licenses are left as they
    were. *)
Theorem C5_store_errors_of_license_stage
  (w : Oracle) (wd : World) (ctx : Context) (req : ValidateRequest.t)
  (tok : string) :
  header_token ctx = Some tok ->
  fst (run w (V2.RedeemToken tok) wd) = Ok tt ->
  let res := run w (V2.ValidateLicense ctx req) wd in
  let lookup := w (S (List.length (trace wd))) in
  let update := w (S (S (List.length (trace wd)))) in
  (forall e, fault lookup = Some e ->
     fst res = Err (status_Errorf Internal "db error: " e)
     /\ licenses (store (snd res)) = licenses (store wd))
  /\ (forall e r, fault lookup = None ->
        find (license_matches (ValidateRequest.LicenseKey req)
                              (ValidateRequest.ProductId req))
             (licenses (store wd)) = Some r ->
        locks req r = true ->
        fault update = Some e ->
        fst res = authenticated
        /\ licenses (store (snd res)) = licenses (store wd)).
Proof.
  intros Ht Hok res lookup update. subst res.
  rewrite (ValidateLicense_after_burn _ _ _ _ _ Ht Hok).
  unfold license_stage. rewrite tick_next. fold lookup.
  cbn [store licenses with_tokens trace].
  rewrite length_app, Nat.add_comm. cbn [List.length Nat.add]. fold update.
  split.
  - intros e He. rewrite He. auto.
  - intros e r Hl Hfind Hlocks Hu. rewrite Hl, Hfind, Hlocks, Hu. auto.
Qed.

(** ** Issuing tokens *)

(** [C6] [GetAuthToken]: an empty API key is rejected with
    InvalidArgument before any statement is sent; when the lookup reaches
    the store and finds no row for the key whose expiry is NULL or in the
    future the call fails with Unauthenticated and the store is left as it
    was; otherwise, both statements reaching the store, exactly one row is
    appended to the token table, its identifier is the drawn one, which no
    other row carries, its expiry is 30 seconds after its creation, and
    the call returns this identifier with [ExpiresInSeconds = 30]. *)
Theorem C6_issue_token
  (w : Oracle) (wd : World) (ctx : Context) (req : GetTokenRequest.t) :
  let k := GetTokenRequest.ApiKey req in
  let res := run w (V2.GetAuthToken ctx req) wd in
  let lookup := tick w wd in
  let insert := w (S (List.length (trace wd))) in
  (k = "" ->
     err_code (fst res) = Some InvalidArgument /\ snd res = wd)
  /\ (k <> "" -> fault lookup = None ->
      existsb (api_key_valid k (now lookup)) (api_keys (store wd)) = false ->
      err_code (fst res) = Some Unauthenticated
      /\ store (snd res) = store wd)
  /\ (k <> "" -> fault lookup = None -> fault insert = None ->
      existsb (api_key_valid k (now lookup)) (api_keys (store wd)) = true ->
      token_taken (uuid insert) (store wd) = false ->
      fst res = Ok (AuthTokenResponse.mk (uuid insert) 30)
      /\ access_tokens (store (snd res))
         = (access_tokens (store wd)
            ++ [mkAccessToken (uuid insert) (now insert)
                              (now insert + 30 * second)])%list
      /\ count (fun r => String.eqb (token r) (uuid insert))
               (access_tokens (store (snd res))) = 1%nat
      /\ api_keys (store (snd res)) = api_keys (store wd)
      /\ licenses (store (snd res)) = licenses (store wd)).
Proof.
  intros k res lookup insert. subst res. rewrite GetAuthToken_run.
  fold k lookup insert.
  split; [| split].
  - intros ->. split; reflexivity.
  - intros Hk Hf Hex. apply String.eqb_neq in Hk. rewrite Hk, Hf, Hex.
    split; reflexivity.
  - intros Hk Hf0 Hf1 Hex Hfresh. apply String.eqb_neq in Hk.
    rewrite Hk, Hf0, Hex, Hf1, Hfresh.
    cbn [negb fst snd store access_tokens api_keys licenses with_tokens].
    repeat split.
    unfold count. rewrite filter_app.
    assert (Hnone : filter (fun r => String.eqb (token r) (uuid insert))
                           (access_tokens (store wd)) = []).
    { unfold token_taken in Hfresh. clear -Hfresh.
      induction (access_tokens (store wd)) as [| r l IH];
        simpl in *; [reflexivity |].
      apply orb_false_elim in Hfresh as [H1 H2]. rewrite H1. auto. }
    rewrite Hnone. simpl. rewrite String.eqb_refl. reflexivity.
Qed.

(** ** Administration *)

Lemma checkAdmin_first_value (environ : Environ) (ctx : Context) (md : MD)
  (v : string) (rest : list string) :
  FromIncomingContext ctx = Some md ->
  md_get md "x-admin-secret" = v :: rest ->
  (V2.checkAdmin environ ctx = None <-> v = Getenv environ "ADMIN_SECRET").
Proof.
  intros Hmd Hget. unfold V2.checkAdmin. rewrite Hmd, Hget.
  destruct (String.eqb v (Getenv environ "ADMIN_SECRET")) eqn:E; simpl.
  - apply String.eqb_eq in E. tauto.
  - apply String.eqb_neq in E. split; [discriminate | contradiction].
Qed.

Lemma UpdateLicense_run (environ : Environ) (w : Oracle) (wd : World)
  (ctx : Context) (req : UpdateLicenseRequest.t) :
  V2.checkAdmin environ ctx = None ->
  let q := UpsertLicense (UpdateLicenseRequest.LicenseKey req)
                         (UpdateLicenseRequest.ProductId req)
                         (UpdateLicenseRequest.IsActive req) in
  run w (V2.UpdateLicense environ ctx req) wd =
  match fault (tick w wd) with
  | Some e => (Err (status_Errorf Internal "upsert failed: " e),
               mkWorld (store wd) (trace wd ++ [event q]))
  | None => (Ok tt,
             mkWorld (snd (perform q (tick w wd) (store wd)))
                     (trace wd ++ [event q]))
  end.
Proof.
  intros Hadm q. unfold V2.UpdateLicense. rewrite Hadm. cbn [run]. fold q.
  destruct (fault (tick w wd)) as [e |] eqn:Hf.
  - rewrite (step_fault _ _ _ e Hf). reflexivity.
  - rewrite (step_ok _ _ _ Hf). unfold q at 1. cbn [perform].
    unfold upsert_license. destruct (existsb _ _); reflexivity.
Qed.

Lemma DeleteLicense_run (environ : Environ) (w : Oracle) (wd : World)
  (ctx : Context) (req : DeleteLicenseRequest.t) :
  V2.checkAdmin environ ctx = None ->
  let q := DeleteLicenseRow (DeleteLicenseRequest.LicenseKey req) in
  run w (V2.DeleteLicense environ ctx req) wd =
  match fault (tick w wd) with
  | Some e => (Err (status_Errorf Internal "delete failed: " e),
               mkWorld (store wd) (trace wd ++ [event q]))
  | None => (Ok tt,
             mkWorld (snd (perform q (tick w wd) (store wd)))
                     (trace wd ++ [event q]))
  end.
Proof.
  intros Hadm q. unfold V2.DeleteLicense. rewrite Hadm. cbn [run]. fold q.
  destruct (fault (tick w wd)) as [e |] eqn:Hf.
  - rewrite (step_fault _ _ _ e Hf). reflexivity.
  - rewrite (step_ok _ _ _ Hf). reflexivity.
Qed.

(** [C10] With an empty configured admin secret ([ADMIN_SECRET] unset
    or empty), an admin request whose [x-admin-secret] header has an empty
    first value passes [checkAdmin], and [UpdateLicense] and
    [DeleteLicense] go on to send their statement; whatever the secret,
    the check passes exactly when the first value of the header equals
    it, the other values being ignored. *)
Theorem C10_empty_admin_secret
  (environ : Environ) (ctx : Context) (md : MD) (rest : list string) :
  Getenv environ "ADMIN_SECRET" = "" ->
  FromIncomingContext ctx = Some md ->
  md_get md "x-admin-secret" = "" :: rest ->
  V2.checkAdmin environ ctx = None
  /\ (forall w wd req,
        new_events wd (snd (run w (V2.UpdateLicense environ ctx req) wd))
        = [event (UpsertLicense (UpdateLicenseRequest.LicenseKey req)
                                (UpdateLicenseRequest.ProductId req)
                                (UpdateLicenseRequest.IsActive req))]
        /\ (fault (tick w wd) = None ->
            fst (run w (V2.UpdateLicense environ ctx req) wd) = Ok tt))
  /\ (forall w wd req,
        new_events wd (snd (run w (V2.DeleteLicense environ ctx req) wd))
        = [event (DeleteLicenseRow (DeleteLicenseRequest.LicenseKey req))]
        /\ (fault (tick w wd) = None ->
            fst (run w (V2.DeleteLicense environ ctx req) wd) = Ok tt))
  /\ (forall environ' ctx' md' v others,
        FromIncomingContext ctx' = Some md' ->
        md_get md' "x-admin-secret" = v :: others ->
        (V2.checkAdmin environ' ctx' = None
         <-> v = Getenv environ' "ADMIN_SECRET")).
Proof.
  intros Hsecret Hmd Hget.
  assert (Hadm : V2.checkAdmin environ ctx = None)
    by (apply (checkAdmin_first_value _ _ _ _ _ Hmd Hget); now rewrite Hsecret).
  split; [exact Hadm |].
  split; [| split].
  - intros w wd req. rewrite (UpdateLicense_run _ _ _ _ _ Hadm).
    destruct (fault (tick w wd)); cbn [fst snd]; rewrite new_events_app;
      split; auto; discriminate.
  - intros w wd req. rewrite (DeleteLicense_run _ _ _ _ _ Hadm).
    destruct (fault (tick w wd)); cbn [fst snd]; rewrite new_events_app;
      split; auto; discriminate.
  - intros environ' ctx' md' v others. apply checkAdmin_first_value.
Qed.

Lemma has_key_overwrite (lk k pid : string) (a : bool) (r : License) :
  has_key lk (overwrite k pid a r) = has_key lk r.
Proof.
  unfold overwrite. destruct (has_key k r); reflexivity.
Qed.

Lemma has_key_eq (lk : string) (r : License) :
  has_key lk r = true -> license_key r = lk.
Proof.
  apply String.eqb_eq.
Qed.

Lemma existsb_find {A} (p : A -> bool) (l : list A) :
  existsb p l = match find p l with Some _ => true | None => false end.
Proof.
  induction l as [| x l IH]; simpl; [reflexivity |].
  destruct (p x); [reflexivity | exact IH].
Qed.

Lemma find_app_none {A} (p : A -> bool) (l l' : list A) :
  find p l = None -> find p (l ++ l') = find p l'.
Proof.
  induction l as [| x l IH]; simpl; [reflexivity |].
  destruct (p x); [discriminate | exact IH].
Qed.

(** The row the upsert leaves under its key. *)
Lemma upsert_license_of (lk pid : string) (a : bool) (s : Store) :
  license_of lk (snd (upsert_license lk pid a s))
  = Some (mkLicense lk pid a
            (match license_of lk s with Some r => hwid r | None => None end)).
Proof.
  unfold upsert_license, license_of. rewrite existsb_find.
  destruct (find (has_key lk) (licenses s)) as [r |] eqn:F;
    cbn [snd licenses with_licenses].
  - rewrite find_map_stable by (intros; apply has_key_overwrite).
    rewrite F. cbn [option_map]. unfold overwrite.
    apply find_some in F as [_ Hk]. rewrite Hk.
    apply has_key_eq in Hk. rewrite Hk. reflexivity.
  - rewrite (find_app_none _ _ _ F). simpl. unfold has_key at 1. simpl.
    rewrite String.eqb_refl. reflexivity.
Qed.

Lemma overwrite_hwid (lk pid : string) (a : bool) (r : License) :
  hwid (overwrite lk pid a r) = hwid r.
Proof.
  unfold overwrite. destruct (has_key lk r); reflexivity.
Qed.

(** [C7] An [UpdateLicense] call that passes the admin check and
    reaches the store, on a key that has a row: the licenses become the
    old ones with [product_id] and [is_active] of the rows with this key
    overwritten by the supplied values, and every row keeps its hwid. A
    second such call with the same key leaves the row with the values of
    the second call. *)
Theorem C7_upsert_overwrites_keeps_hwid
  (environ : Environ) (w : Oracle) (wd : World) (ctx : Context)
  (req : UpdateLicenseRequest.t) (r : License) :
  let lk := UpdateLicenseRequest.LicenseKey req in
  let pid := UpdateLicenseRequest.ProductId req in
  let a := UpdateLicenseRequest.IsActive req in
  let res := run w (V2.UpdateLicense environ ctx req) wd in
  V2.checkAdmin environ ctx = None ->
  fault (tick w wd) = None ->
  license_of lk (store wd) = Some r ->
  fst res = Ok tt
  /\ licenses (store (snd res)) = map (overwrite lk pid a) (licenses (store wd))
  /\ license_of lk (store (snd res)) = Some (mkLicense lk pid a (hwid r))
  /\ map hwid (licenses (store (snd res))) = map hwid (licenses (store wd))
  /\ (forall req2,
        UpdateLicenseRequest.LicenseKey req2 = lk ->
        fault (tick w (snd res)) = None ->
        let res2 := run w (V2.UpdateLicense environ ctx req2) (snd res) in
        fst res2 = Ok tt
        /\ license_of lk (store (snd res2))
           = Some (mkLicense lk (UpdateLicenseRequest.ProductId req2)
                             (UpdateLicenseRequest.IsActive req2) (hwid r))).
Proof.
  intros lk pid a res Hadm Hf Hr. subst res.
  rewrite (UpdateLicense_run _ _ _ _ _ Hadm), Hf. fold lk pid a.
  cbn [fst snd perform].
  pose proof (upsert_license_of lk pid a (store wd)) as Hafter.
  rewrite Hr in Hafter.
  assert (Hex : existsb (has_key lk) (licenses (store wd)) = true).
  { rewrite existsb_find. unfold license_of in Hr. rewrite Hr. reflexivity. }
  assert (Hl : licenses (snd (upsert_license lk pid a (store wd)))
               = map (overwrite lk pid a) (licenses (store wd))).
  { unfold upsert_license. rewrite Hex. reflexivity. }
  cbn [store].
  split; [reflexivity |]. split; [exact Hl |]. split; [exact Hafter |].
  split.
  { rewrite Hl, map_map. apply map_ext. intros x. apply overwrite_hwid. }
  intros req2 Hsame Hf2.
  rewrite (UpdateLicense_run _ _ _ _ _ Hadm), Hf2, Hsame.
  cbn [fst snd perform store]. split; [reflexivity |].
  rewrite upsert_license_of, Hafter. reflexivity.
Qed.

(** ** The two revisions *)

(** [C8], as stated, fails: on a suspended license the two revisions
    answer with different messages. *)
Lemma C8_counterexample :
  let ctx := with_token "t1" in
  let req := ValidateRequest.mk "LIC-2" "PROD-A" "" in
  fst (run calm (V1.ValidateLicense ctx req) demo_world)
  = Ok (ValidateResponse.mk false "License is banned or inactive")
  /\ fst (run calm (V2.ValidateLicense ctx req) demo_world)
     = Ok (ValidateResponse.mk false "License is suspended")
  /\ fst (run calm (V1.ValidateLicense ctx req) demo_world)
     <> fst (run calm (V2.ValidateLicense ctx req) demo_world).
Proof.
  vm_compute. repeat split. discriminate.
Qed.

Lemma V1_checkLicense_run (w : Oracle) (req : ValidateRequest.t) (wd : World) :
  run w (V1.checkLicense req) wd
  = license_stage "License is banned or inactive" w req wd.
Proof.
  unfold V1.checkLicense, license_stage. cbn [run].
  destruct (fault (tick w wd)) as [e |] eqn:Hf.
  - rewrite (step_fault _ _ _ e Hf). reflexivity.
  - rewrite (step_ok _ _ _ Hf). cbn [perform fst snd].
    destruct (find _ (licenses (store wd))) as [r |]; [| reflexivity].
    unfold locks, verdict.
    destruct (is_active r); [| reflexivity]. cbn [negb andb].
    destruct (String.eqb (ValidateRequest.Hwid req) ""); [reflexivity |].
    cbn [negb andb]. rewrite scan_null_unset.
    destruct (hwid_unset r) eqn:Hu.
    + cbn [run]. unfold step, exec. rewrite tick_next.
      destruct (fault (w (S (List.length (trace wd))))); reflexivity.
    + unfold hwid_unset in Hu.
      destruct (hwid r) as [h |]; [| discriminate]. cbn [scan_null String_].
      destruct (String.eqb h (ValidateRequest.Hwid req)); reflexivity.
Qed.

Lemma license_stage_relabel (w : Oracle) (req : ValidateRequest.t) (wd : World) :
  license_stage "License is suspended" w req wd
  = (relabel (fst (license_stage "License is banned or inactive" w req wd)),
     snd (license_stage "License is banned or inactive" w req wd)).
Proof.
  unfold license_stage.
  destruct (fault (tick w wd)); [reflexivity |].
  destruct (find _ _) as [r |]; [| reflexivity].
  destruct (locks req r); [reflexivity |].
  unfold verdict.
  destruct (is_active r); [| reflexivity]. cbn [negb].
  destruct (String.eqb (ValidateRequest.Hwid req) ""); [reflexivity |].
  destruct (hwid_unset r); [reflexivity |].
  destruct (hwid r) as [h |]; [| reflexivity].
  destruct (String.eqb h (ValidateRequest.Hwid req)); reflexivity.
Qed.

(** [C8], amended. On every input the two revisions of
    [ValidateLicense], [UpdateLicense] and [DeleteLicense] send the same
    statements and leave the same store; [ValidateLicense] returns the
    same result except that the answer for an inactive license reads
    "License is banned or inactive" in the earlier revision and "License
    is suspended" in the later one; [UpdateLicense] and [DeleteLicense]
    return the same result except for the text of the Internal status of
    a store error. [GetAuthToken] of the later revision, once its API key
    lookup has found a valid key, goes on exactly as the earlier one. *)
Theorem C8_revisions_agree_up_to_messages :
  (forall w ctx req wd,
      run w (V2.ValidateLicense ctx req) wd
      = (relabel (fst (run w (V1.ValidateLicense ctx req) wd)),
         snd (run w (V1.ValidateLicense ctx req) wd)))
  /\ (forall environ w ctx req wd,
        snd (run w (V2.UpdateLicense environ ctx req) wd)
        = snd (run w (V1.UpdateLicense environ ctx req) wd)
        /\ same_but_internal_text
             (fst (run w (V1.UpdateLicense environ ctx req) wd))
             (fst (run w (V2.UpdateLicense environ ctx req) wd)))
  /\ (forall environ w ctx req wd,
        snd (run w (V2.DeleteLicense environ ctx req) wd)
        = snd (run w (V1.DeleteLicense environ ctx req) wd)
        /\ same_but_internal_text
             (fst (run w (V1.DeleteLicense environ ctx req) wd))
             (fst (run w (V2.DeleteLicense environ ctx req) wd)))
  /\ (forall w ctx req wd,
        let k := GetTokenRequest.ApiKey req in
        k <> "" ->
        fault (tick w wd) = None ->
        existsb (api_key_valid k (now (tick w wd))) (api_keys (store wd)) = true ->
        run w (V2.GetAuthToken ctx req) wd
        = run w (V1.GetAuthToken ctx tt)
              (mkWorld (store wd) (trace wd ++ [event (ApiKeyExists k)]))).
Proof.
  split; [| split; [| split]].
  - intros w ctx req wd. rewrite ValidateLicense_run.
    unfold V1.ValidateLicense.
    destruct (FromIncomingContext ctx) as [md |]; [| reflexivity].
    destruct (md_get md "x-access-token") as [| tok rest]; [reflexivity |].
    rewrite run_bind.
    change (V1.RedeemToken tok) with (V2.RedeemToken tok).
    destruct (run w (V2.RedeemToken tok) wd) as [[u | st] wd1];
      [| reflexivity].
    rewrite checkLicense_run, V1_checkLicense_run.
    apply license_stage_relabel.
  - intros environ w ctx req wd.
    unfold V1.UpdateLicense, V2.UpdateLicense.
    change (V1.checkAdmin environ ctx) with (V2.checkAdmin environ ctx).
    destruct (V2.checkAdmin environ ctx) as [err |].
    + simpl. auto.
    + cbn [run]. destruct (step w _ wd) as [[n | e] wd1]; simpl.
      * auto.
      * split; [reflexivity |]. split; [reflexivity | congruence].
  - intros environ w ctx req wd.
    unfold V1.DeleteLicense, V2.DeleteLicense.
    change (V1.checkAdmin environ ctx) with (V2.checkAdmin environ ctx).
    destruct (V2.checkAdmin environ ctx) as [err |].
    + simpl. auto.
    + cbn [run]. destruct (step w _ wd) as [[n | e] wd1]; simpl.
      * auto.
      * split; [reflexivity |]. split; [reflexivity | congruence].
  - intros w ctx req wd k Hk Hf Hex. unfold V2.GetAuthToken. fold k.
    apply String.eqb_neq in Hk. rewrite Hk. cbn [run].
    rewrite (step_ok _ _ _ Hf). cbn [perform fst snd]. rewrite Hex.
    reflexivity.
Qed.

(** ** Concurrent redemption *)

Lemma run_schedule_invariant {A} (w : Oracle)
  (I : list (Prog A) -> World -> Prop) :
  (forall i pool wd,
      I pool wd ->
      I (fst (step_thread w i pool wd)) (snd (step_thread w i pool wd))) ->
  forall sched pool wd,
    I pool wd ->
    I (fst (run_schedule w sched pool wd)) (snd (run_schedule w sched pool wd)).
Proof.
  intros Hstep sched. induction sched as [| i sched IH]; intros pool wd HI.
  - exact HI.
  - simpl. specialize (Hstep i pool wd HI).
    destruct (step_thread w i pool wd) as [pool' wd']. now apply IH.
Qed.

Lemma set_nth_length {A} (i : nat) (x : A) (l : list A) :
  List.length (set_nth i x l) = List.length l.
Proof.
  revert i. induction l as [| y l IH]; intros [| i]; simpl; auto.
Qed.

Lemma set_nth_Forall {A} (P : A -> Prop) (i : nat) (x : A) (l : list A) :
  Forall P l -> P x -> Forall P (set_nth i x l).
Proof.
  intros Hl Hx. revert i.
  induction Hl as [| y l Hy Hl IH]; intros [| i]; simpl; auto.
Qed.

Lemma set_nth_count {A} (f : A -> bool) (i : nat) (x y : A) (l : list A) :
  nth_error l i = Some y ->
  (count f (set_nth i x l) + (if f y then 1 else 0)
   = count f l + (if f x then 1 else 0))%nat.
Proof.
  unfold count. revert i.
  induction l as [| z l IH]; intros [| i]; simpl; try discriminate.
  - intros H; inversion H; subst.
    destruct (f x), (f y); simpl; lia.
  - intros H. specialize (IH i H). destruct (f z); simpl; lia.
Qed.

Lemma step_thread_redeem (w : Oracle) (tok : string) (i : nat)
  (pool : list (Prog (Result unit))) (wd : World) :
  nth_error pool i = Some (V2.RedeemToken tok) ->
  step_thread w i pool wd =
  (set_nth i (Ret (fst (run w (V2.RedeemToken tok) wd))) pool,
   snd (run w (V2.RedeemToken tok) wd)).
Proof.
  intros Hnth. unfold step_thread. rewrite Hnth.
  unfold V2.RedeemToken. cbn [run].
  destruct (step w (DeleteToken tok) wd) as [[n | e] wd'].
  - destruct (n =? 0); reflexivity.
  - reflexivity.
Qed.

Lemma step_thread_done {A} (w : Oracle) (i : nat) (pool : list (Prog A))
  (wd : World) (a : A) :
  nth_error pool i = Some (Ret a) -> step_thread w i pool wd = (pool, wd).
Proof.
  intros Hnth. unfold step_thread. rewrite Hnth. reflexivity.
Qed.

Lemma step_thread_out {A} (w : Oracle) (i : nat) (pool : list (Prog A))
  (wd : World) :
  nth_error pool i = None -> step_thread w i pool wd = (pool, wd).
Proof.
  intros Hnth. unfold step_thread. rewrite Hnth. reflexivity.
Qed.

Lemma rows_with_after_delete (tok : string) (t : Time) (l : list AccessToken) :
  (count (fun r => String.eqb (token r) tok)
         (filter (fun r => negb (token_live tok t r)) l)
   + List.length (filter (token_live tok t) l)
   = count (fun r => String.eqb (token r) tok) l)%nat.
Proof.
  unfold count. induction l as [| r l IH]; simpl; [reflexivity |].
  destruct (token_live tok t r) eqn:L; simpl.
  - apply token_live_token in L. apply String.eqb_eq in L. rewrite L.
    simpl. lia.
  - destruct (String.eqb (token r) tok); simpl; lia.
Qed.

Lemma rows_with_unique (tok : string) (s : Store) :
  unique_tokens s -> (rows_with tok s <= 1)%nat.
Proof.
  unfold unique_tokens, rows_with, count.
  induction (access_tokens s) as [| r l IH]; simpl; intros Hnd; [lia |].
  inversion Hnd as [| x xs Hnotin Hnd']; subst.
  destruct (String.eqb (token r) tok) eqn:E; simpl; [| auto].
  apply String.eqb_eq in E.
  assert (Hnil : filter (fun r0 => String.eqb (token r0) tok) l = []).
  { destruct (filter _ l) as [| r' l'] eqn:F; [reflexivity |].
    exfalso. apply Hnotin.
    assert (Hin : In r' (filter (fun r0 => String.eqb (token r0) tok) l))
      by (rewrite F; now left).
    apply filter_In in Hin as [Hin Heq]. apply String.eqb_eq in Heq.
    rewrite E, <- Heq. now apply in_map. }
  rewrite Hnil. simpl. lia.
Qed.

Lemma at_most_one_step (w : Oracle) (tok : string) (i : nat)
  (pool : list (Prog (Result unit))) (wd : World) :
  at_most_one tok pool wd ->
  at_most_one tok (fst (step_thread w i pool wd))
                  (snd (step_thread w i pool wd)).
Proof.
  intros [Hall Hle].
  destruct (nth_error pool i) as [p |] eqn:Hnth;
    [| rewrite (step_thread_out _ _ _ _ Hnth); split; assumption].
  assert (Hp : redeeming tok p)
    by (rewrite Forall_forall in Hall; apply Hall; eapply nth_error_In; eauto).
  destruct Hp as [| r];
    [| rewrite (step_thread_done _ _ _ _ _ Hnth); split; assumption].
  rewrite (step_thread_redeem _ _ _ _ _ Hnth). cbn [fst snd].
  split; [apply set_nth_Forall; [assumption | constructor] |].
  pose proof (set_nth_count succeeded i
                (Ret (fst (run w (V2.RedeemToken tok) wd))) _ pool Hnth) as Hc.
  change (succeeded (V2.RedeemToken tok)) with false in Hc.
  rewrite RedeemToken_run in *.
  destruct (fault (tick w wd)); cbn [fst snd store] in *.
  - change (succeeded (Ret (@Err unit _))) with false in Hc.
    cbv iota in Hc. lia.
  - unfold rows_with in *. cbn [access_tokens with_tokens].
    pose proof (rows_with_after_delete tok (now (tick w wd))
                  (access_tokens (store wd))) as Hr.
    unfold rows in *.
    destruct (Z.of_nat _ =? 0) eqn:E.
    + change (succeeded (Ret (@Err unit _))) with false in Hc.
      cbv iota in Hc. lia.
    + change (succeeded (Ret (Ok tt))) with true in Hc.
      cbv iota in Hc. apply Z.eqb_neq in E. lia.
Qed.

Lemma stays_live_rows (w : Oracle) (tok : string) (s : Store) (n : nat) :
  stays_live w tok s ->
  rows (token_live tok (now (w n))) (access_tokens s) <> 0.
Proof.
  intros (r & Hin & Htok & Hlive) Hz. apply filter_none in Hz.
  assert (Hr : In r (filter (token_live tok (now (w n))) (access_tokens s))).
  { apply filter_In. split; [exact Hin |]. unfold token_live.
    rewrite Htok, String.eqb_refl. simpl. apply Z.ltb_lt. apply Hlive. }
  rewrite Hz in Hr. exact Hr.
Qed.

Lemma someone_wins_step (w : Oracle) (tok : string) (N i : nat)
  (pool : list (Prog (Result unit))) (wd : World) :
  no_faults w ->
  someone_wins w tok N pool wd ->
  someone_wins w tok N (fst (step_thread w i pool wd))
                       (snd (step_thread w i pool wd)).
Proof.
  intros Hnf (Hlen & Hall & Hzero).
  destruct (nth_error pool i) as [p |] eqn:Hnth;
    [| rewrite (step_thread_out _ _ _ _ Hnth);
       exact (conj Hlen (conj Hall Hzero))].
  assert (Hp : settled tok p)
    by (rewrite Forall_forall in Hall; apply Hall; eapply nth_error_In; eauto).
  destruct Hp;
    try (rewrite (step_thread_done _ _ _ _ _ Hnth);
         exact (conj Hlen (conj Hall Hzero))).
  rewrite (step_thread_redeem _ _ _ _ _ Hnth). cbn [fst snd].
  pose proof (set_nth_count succeeded i
                (Ret (fst (run w (V2.RedeemToken tok) wd))) _ pool Hnth) as Hc.
  change (succeeded (V2.RedeemToken tok)) with false in Hc.
  rewrite RedeemToken_run in *. unfold tick in *. rewrite (Hnf _) in *.
  cbn [fst snd store] in *.
  destruct (rows _ _ =? 0) eqn:E.
  - change (succeeded (Ret (@Err unit _))) with false in Hc. cbv iota in Hc.
    split; [rewrite set_nth_length; exact Hlen |].
    split; [apply set_nth_Forall; [assumption | constructor] |].
    intros Hz. exfalso.
    assert (Hz' : count succeeded pool = 0%nat) by lia.
    destruct (Hzero Hz') as [_ Hlive].
    apply Z.eqb_eq in E. revert E. now apply stays_live_rows.
  - change (succeeded (Ret (Ok tt))) with true in Hc. cbv iota in Hc.
    split; [rewrite set_nth_length; exact Hlen |].
    split; [apply set_nth_Forall; [assumption | constructor] |].
    intros Hz. exfalso. lia.
Qed.

Lemma count_complement {A} (f g : A -> bool) (l : list A) :
  Forall (fun x => g x = negb (f x)) l ->
  (count f l + count g l = List.length l)%nat.
Proof.
  unfold count. induction 1 as [| x l Hx Hl IH]; simpl; [reflexivity |].
  rewrite Hx. destruct (f x); simpl; lia.
Qed.

Lemma repeat_Forall {A} (P : A -> Prop) (x : A) (n : nat) :
  P x -> Forall P (repeat x n).
Proof.
  intros Hx. induction n; simpl; constructor; assumption.
Qed.

Lemma count_repeat_false {A} (f : A -> bool) (x : A) (n : nat) :
  f x = false -> count f (repeat x n) = 0%nat.
Proof.
  intros Hx. unfold count. induction n; simpl; [reflexivity |].
  rewrite Hx. exact IHn.
Qed.

(** [C3] N callers redeem the same token concurrently: their
    conditional deletes reach the store in an arbitrary order, one
    statement at a time, and nothing else orders them. With [token] a
    unique key at most one caller succeeds, whatever the store does. When
    the token has a row that stays unexpired, no round trip fails and all
    N >= 1 callers have returned, exactly one of them has succeeded and the
    other N - 1 have failed with Unauthenticated. *)
Theorem C3_concurrent_redemption
  (w : Oracle) (wd : World) (tok : string) (N : nat) (sched : list nat) :
  let final := fst (run_schedule w sched (repeat (V2.RedeemToken tok) N) wd) in
  unique_tokens (store wd) ->
  (count succeeded final <= 1)%nat
  /\ (no_faults w ->
      stays_live w tok (store wd) ->
      (1 <= N)%nat ->
      all_returned final = true ->
      count succeeded final = 1%nat
      /\ count (failed_with Unauthenticated) final = (N - 1)%nat).
Proof.
  intros final U.
  assert (Hfresh : succeeded (V2.RedeemToken tok) = false) by reflexivity.
  assert (H1 : at_most_one tok final
                 (snd (run_schedule w sched (repeat (V2.RedeemToken tok) N) wd))).
  { apply (run_schedule_invariant w (at_most_one tok)).
    - intros i pool wd'. apply at_most_one_step.
    - split; [apply repeat_Forall; constructor |].
      rewrite (count_repeat_false _ _ _ Hfresh).
      pose proof (rows_with_unique tok (store wd) U). lia. }
  destruct H1 as [_ Hle]. split; [lia |].
  intros Hnf Hlive HN Hret.
  assert (H2 : someone_wins w tok N final
                 (snd (run_schedule w sched (repeat (V2.RedeemToken tok) N) wd))).
  { apply (run_schedule_invariant w (someone_wins w tok N)).
    - intros i pool wd'. now apply someone_wins_step.
    - split; [apply repeat_length |].
      split; [apply repeat_Forall; constructor |].
      intros _. split; [apply repeat_Forall; reflexivity | exact Hlive]. }
  destruct H2 as (Hlen & Hall & Hzero).
  assert (Hwin : count succeeded final <> 0%nat).
  { intros Hz. destruct (Hzero Hz) as [Hallfresh _].
    destruct final as [| p rest]; [simpl in Hlen; lia |].
    inversion Hallfresh as [| x xs Hp _]; subst.
    simpl in Hret. discriminate. }
  split; [lia |].
  assert (Hsum : (count succeeded final
                  + count (failed_with Unauthenticated) final
                  = List.length final)%nat).
  { apply count_complement.
    unfold all_returned in Hret. rewrite forallb_forall in Hret.
    rewrite Forall_forall in *. intros p Hin.
    specialize (Hret p Hin). destruct (Hall p Hin); try reflexivity.
    simpl in Hret. discriminate. }
  lia.
Qed.

(** ** The background sweep *)

(** One pass of the sweep removes no row that is still live at the time
    of the pass or later: redemption does not depend on it. *)
Lemma cleanupTick_keeps_live (w : Oracle) (wd : World) (tok : string)
  (t : Time) (r : AccessToken) :
  now (tick w wd) <= t ->
  In r (access_tokens (store wd)) ->
  token_live tok t r = true ->
  In r (access_tokens (store (snd (run w V2.cleanupTick wd)))).
Proof.
  intros Hle Hin Hlive. unfold V2.cleanupTick. cbn [run].
  unfold step, exec.
  destruct (fault (tick w wd)); cbn [snd store]; [exact Hin |].
  cbn [perform snd store access_tokens with_tokens].
  apply filter_In. split; [exact Hin |].
  unfold token_live in Hlive. apply andb_prop in Hlive as [_ Hlt].
  apply Z.ltb_lt in Hlt. unfold token_expired.
  apply negb_true_iff. apply Z.ltb_ge. lia.
Qed.

(** ** The statements at work on a small installation *)

Lemma demo_unique : unique_tokens (store demo_world).
Proof.
  unfold unique_tokens. simpl. constructor; [intros [] | constructor].
Defined.

Lemma C1_witness :
  unique_tokens (store demo_world)
  /\ is_ok (fst (run calm (V2.RedeemToken "t1") demo_world)) = true
  /\ (let issue := run calm (V2.GetAuthToken (mkContext None)
                               (GetTokenRequest.mk "valid-key")) demo_world in
      let first := run calm (V2.RedeemToken "c0ffee") (snd issue) in
      let second := run calm (V2.RedeemToken "c0ffee") (snd first) in
      fst first = Ok tt
      /\ is_ok (fst second) = false
      /\ (fault (tick calm (snd first)) = None ->
          fst second = Err unauthenticated_token)).
Proof.
  split; [exact demo_unique |]. split.
  - apply (proj1 C1_redeem_token calm demo_world "t1" demo_unique).
    reflexivity.
  - apply (proj2 C1_redeem_token calm demo_world _ (mkContext None)
             (GetTokenRequest.mk "valid-key")
             (AuthTokenResponse.mk "c0ffee" 30)).
    + reflexivity.
    + reflexivity.
    + reflexivity.
Defined.

Lemma C2_witness :
  let res := run calm (V2.ValidateLicense (with_token "never-issued")
                         (ValidateRequest.mk "LIC-1" "PROD-A" ""))
                 demo_world in
  is_ok (fst res) = false
  /\ err_code (fst res) = Some Unauthenticated
  /\ off_licenses (new_events demo_world (snd res)) = true
  /\ licenses (store (snd res)) = licenses (store demo_world).
Proof.
  destruct (C2_dead_token_stops_at_token_stage calm demo_world
              (with_token "never-issued")
              (ValidateRequest.mk "LIC-1" "PROD-A" ""))
    as (H1 & H2 & _ & H4 & H5).
  - intros tok H. injection H as <-. reflexivity.
  - split; [exact H1 |]. split; [apply H2; right; reflexivity |].
    split; [exact H4 | exact H5].
Defined.

Lemma C3_witness :
  let final := fst (run_schedule steady [2; 0; 1; 1]%nat
                      (repeat (V2.RedeemToken "t1") 3) demo_world) in
  count succeeded final = 1%nat
  /\ count (failed_with Unauthenticated) final = 2%nat.
Proof.
  apply (C3_concurrent_redemption steady demo_world "t1" 3 [2; 0; 1; 1]%nat
           demo_unique).
  - intros n. reflexivity.
  - exists (mkAccessToken "t1" 0 token_ttl).
    split; [left; reflexivity |]. split; [reflexivity |].
    intros n. reflexivity.
  - lia.
  - reflexivity.
Defined.

Lemma C4_witness :
  let res := run calm (V2.ValidateLicense (with_token "t1")
                         (ValidateRequest.mk "LIC-1" "PROD-A" "A"))
                 locked_world in
  fst res = authenticated
  /\ find (license_matches "LIC-1" "PROD-A") (licenses (store (snd res)))
     = Some (mkLicense "LIC-1" "PROD-A" true (Some "A")).
Proof.
  destruct (C4_hwid_lock calm locked_world (with_token "t1")
              (ValidateRequest.mk "LIC-1" "PROD-A" "A") "t1" lic1)
    as (H1 & _ & _); try reflexivity.
  - intros H. discriminate H.
  - destruct (H1 eq_refl) as (Ha & _ & Hb). split; [exact Ha | exact Hb].
Defined.

Lemma C5_witness :
  (let res := run second_fails (V2.ValidateLicense (with_token "t1")
                                  (ValidateRequest.mk "LIC-1" "PROD-A" "A"))
                  locked_world in
   fst res = Err (status_Errorf Internal "db error: " "connection reset"))
  /\ (let res := run third_fails (V2.ValidateLicense (with_token "t1")
                                    (ValidateRequest.mk "LIC-1" "PROD-A" "A"))
                     locked_world in
      fst res = authenticated
      /\ licenses (store (snd res)) = licenses (store locked_world)).
Proof.
  split.
  - apply (proj1 (C5_store_errors_of_license_stage second_fails locked_world
                    (with_token "t1")
                    (ValidateRequest.mk "LIC-1" "PROD-A" "A") "t1"
                    eq_refl eq_refl)).
    reflexivity.
  - apply (proj2 (C5_store_errors_of_license_stage third_fails locked_world
                    (with_token "t1")
                    (ValidateRequest.mk "LIC-1" "PROD-A" "A") "t1"
                    eq_refl eq_refl) "connection reset" lic1);
      reflexivity.
Defined.

Lemma C6_witness :
  let res := run calm (V2.GetAuthToken (mkContext None)
                         (GetTokenRequest.mk "valid-key")) demo_world in
  fst res = Ok (AuthTokenResponse.mk "c0ffee" 30)
  /\ access_tokens (store (snd res))
     = [mkAccessToken "t1" 0 token_ttl;
        mkAccessToken "c0ffee" (1 * second) (1 * second + 30 * second)].
Proof.
  destruct (C6_issue_token calm demo_world (mkContext None)
              (GetTokenRequest.mk "valid-key")) as (_ & _ & H).
  destruct H as (Ha & Hb & _); try reflexivity.
  - intros H. discriminate H.
  - split; [exact Ha | exact Hb].
Defined.

Lemma C7_witness :
  let res := run calm (V2.UpdateLicense admin_environ (with_secret ["s3cret"])
                         (UpdateLicenseRequest.mk "LIC-3" "PROD-B" false))
                 locked_world in
  fst res = Ok tt
  /\ license_of "LIC-3" (store (snd res))
     = Some (mkLicense "LIC-3" "PROD-B" false (Some "HW-1"))
  /\ (let res2 := run calm (V2.UpdateLicense admin_environ
                              (with_secret ["s3cret"])
                              (UpdateLicenseRequest.mk "LIC-3" "PROD-B" true))
                      (snd res) in
      license_of "LIC-3" (store (snd res2))
      = Some (mkLicense "LIC-3" "PROD-B" true (Some "HW-1"))).
Proof.
  destruct (C7_upsert_overwrites_keeps_hwid admin_environ calm locked_world
              (with_secret ["s3cret"])
              (UpdateLicenseRequest.mk "LIC-3" "PROD-B" false) lic3)
    as (H1 & _ & H3 & _ & H5); try reflexivity.
  split; [exact H1 |]. split; [exact H3 |].
  apply (H5 (UpdateLicenseRequest.mk "LIC-3" "PROD-B" true)); reflexivity.
Defined.

Lemma C9_witness :
  let res := run calm (V2.ValidateLicense (with_token "t1")
                         (ValidateRequest.mk "LIC-404" "PROD-A" ""))
                 demo_world in
  fst res = negative "License not found"
  /\ access_tokens (store (snd res)) = []
  /\ tokens_removed demo_world (snd res) <> 0.
Proof.
  destruct (C9_token_burned_whatever_the_outcome calm demo_world
              (with_token "t1") (ValidateRequest.mk "LIC-404" "PROD-A" "")
              "t1" eq_refl eq_refl) as (H1 & H2 & _ & _ & H5).
  split; [apply (proj1 (H5 eq_refl)); reflexivity |].
  split; [exact H1 | exact H2].
Defined.

Lemma C10_witness :
  V2.checkAdmin [] (with_secret [""; "anything"]) = None
  /\ fst (run calm (V2.DeleteLicense [] (with_secret [""; "anything"])
                      (DeleteLicenseRequest.mk "LIC-1")) demo_world) = Ok tt.
Proof.
  destruct (C10_empty_admin_secret [] (with_secret [""; "anything"])
              [("x-admin-secret", [""; "anything"])] ["anything"]
              eq_refl eq_refl eq_refl) as (H1 & _ & H3 & _).
  split; [exact H1 |].
  apply (H3 calm demo_world (DeleteLicenseRequest.mk "LIC-1")). reflexivity.
Defined.

Lemma C8_witness :
  run calm (V2.GetAuthToken (mkContext None) (GetTokenRequest.mk "valid-key"))
      demo_world
  = run calm (V1.GetAuthToken (mkContext None) tt)
        (mkWorld demo_store [event (ApiKeyExists "valid-key")]).
Proof.
  apply (proj2 (proj2 (proj2 C8_revisions_agree_up_to_messages))
           calm (mkContext None) (GetTokenRequest.mk "valid-key") demo_world).
  - intros H. discriminate H.
  - reflexivity.
  - reflexivity.
Defined.

(** *** The scenarios of the specification *)

(** A license with no hwid is locked by the first call with hwid "A";
    a second call with "A" is valid; a call with "B" is a mismatch and the
    stored hwid is still "A". *)
Example hwid_lock_scenario :
  let call tok h wd :=
      run calm (V2.ValidateLicense (with_token tok)
                  (ValidateRequest.mk "LIC-1" "PROD-A" h)) wd in
  let c1 := call "t1" "A" locked_world in
  let c2 := call "t2" "A" (snd c1) in
  let c3 := call "t3" "B" (snd c2) in
  fst c1 = authenticated
  /\ fst c2 = authenticated
  /\ fst c3 = negative "HWID mismatch"
  /\ license_of "LIC-1" (store (snd c3))
     = Some (mkLicense "LIC-1" "PROD-A" true (Some "A"))
  /\ access_tokens (store (snd c3)) = [].
Proof.
  vm_compute. repeat split.
Qed.

(** Issuing a token with a valid key and validating a license that has
    no row. *)
Example issue_then_validate_unknown_license :
  let issue := run calm (V2.GetAuthToken (mkContext None)
                           (GetTokenRequest.mk "valid-key"))
                   (mkWorld (mkStore [mkApiKey "valid-key" None] [] []) []) in
  let check := run calm (V2.ValidateLicense (with_token "c0ffee")
                           (ValidateRequest.mk "LIC-1" "PROD-A" ""))
                   (snd issue) in
  fst issue = Ok (AuthTokenResponse.mk "c0ffee" 30)
  /\ fst check = negative "License not found"
  /\ access_tokens (store (snd check)) = [].
Proof.
  vm_compute. repeat split.
Qed.

(** A token that is not redeemed within its lifetime fails redemption
    even though no sweep has run. *)
Example expired_token_is_refused :
  let late : Oracle := fun _ => mkEnv (31 * second) None "c0ffee" in
  let res := run late (V2.RedeemToken "t1") demo_world in
  fst res = Err unauthenticated_token
  /\ access_tokens (store (snd res)) = access_tokens demo_store.
Proof.
  vm_compute. repeat split.
Qed.

(** An admin call with a wrong or missing secret is refused and sends
    nothing to the store; deleting a key that has no row succeeds. *)
Example admin_scenarios :
  run calm (V2.UpdateLicense admin_environ (with_secret ["guess"])
              (UpdateLicenseRequest.mk "LIC-1" "PROD-A" false)) demo_world
  = (Err (status_Error PermissionDenied "invalid admin secret"), demo_world)
  /\ run calm (V2.DeleteLicense admin_environ (with_secret [])
                 (DeleteLicenseRequest.mk "LIC-1")) demo_world
     = (Err (status_Error PermissionDenied "invalid admin secret"), demo_world)
  /\ run calm (V2.DeleteLicense admin_environ (mkContext None)
                 (DeleteLicenseRequest.mk "LIC-1")) demo_world
     = (Err (status_Error Unauthenticated "metadata missing"), demo_world)
  /\ fst (run calm (V2.DeleteLicense admin_environ (with_secret ["s3cret"])
                      (DeleteLicenseRequest.mk "LIC-404")) demo_world)
     = Ok tt.
Proof.
  vm_compute. repeat split.
Qed.

(** * Further properties of the service *)

(** ** The sweep *)

Lemma cleanupTick_run (w : Oracle) (wd : World) :
  run w V2.cleanupTick wd =
  (tt,
   mkWorld
     (match fault (tick w wd) with
      | Some _ => store wd
      | None =>
          with_tokens (store wd)
            (filter (fun r => negb (token_expired (now (tick w wd)) r))
                    (access_tokens (store wd)))
      end)
     (trace wd ++ [event SweepTokens])).
Proof.
  unfold V2.cleanupTick. cbn [run]. unfold step, exec.
  destruct (fault (tick w wd)); reflexivity.
Qed.

Lemma live_not_expired (tok : string) (t t' : Time) (r : AccessToken) :
  t <= t' -> token_live tok t' r = true -> token_expired t r = false.
Proof.
  unfold token_live, token_expired. intros Hle H.
  apply andb_prop in H as [_ H]. apply Z.ltb_lt in H. apply Z.ltb_ge. lia.
Qed.

(** [X1] One pass of the sweep: no row is added; a row that a
    redemption at the time of the pass or later could still use is kept;
    when the pass reached the store, no row whose expiry lies before the
    time of the pass is left; when it failed, the token table is as it
    was; the licenses and the API keys are never touched. *)
Theorem X1_sweep_pass (w : Oracle) (wd : World) :
  let after := snd (run w V2.cleanupTick wd) in
  let t := now (tick w wd) in
  (forall r, In r (access_tokens (store after)) ->
             In r (access_tokens (store wd)))
  /\ (forall r tok t', t <= t' -> In r (access_tokens (store wd)) ->
        token_live tok t' r = true -> In r (access_tokens (store after)))
  /\ (fault (tick w wd) = None ->
      forall r, In r (access_tokens (store after)) -> t <= expires_at r)
  /\ (forall e, fault (tick w wd) = Some e -> store after = store wd)
  /\ licenses (store after) = licenses (store wd)
  /\ api_keys (store after) = api_keys (store wd).
Proof.
  intros after t. subst after. rewrite cleanupTick_run. cbn [snd store]. fold t.
  destruct (fault (tick w wd)) as [e |];
    cbn [access_tokens licenses api_keys with_tokens].
  - repeat split; auto. discriminate.
  - repeat split; try discriminate.
    + intros r Hin. now apply filter_In in Hin.
    + intros r tok t' Hle Hin Hlive. apply filter_In. split; [exact Hin |].
      now rewrite (live_not_expired tok t t' r Hle Hlive).
    + intros _ r Hin. apply filter_In in Hin as [_ Hk].
      apply negb_true_iff in Hk. unfold token_expired in Hk.
      now apply Z.ltb_ge in Hk.
Qed.

Lemma cleanupExpiredTokens_run_trace (w : Oracle) (ticks : nat) (wd : World) :
  trace (snd (run w (cleanupExpiredTokens ticks) wd))
  = (trace wd ++ repeat (event SweepTokens) ticks)%list
  /\ licenses (store (snd (run w (cleanupExpiredTokens ticks) wd)))
     = licenses (store wd)
  /\ api_keys (store (snd (run w (cleanupExpiredTokens ticks) wd)))
     = api_keys (store wd)
  /\ incl (access_tokens (store (snd (run w (cleanupExpiredTokens ticks) wd))))
          (access_tokens (store wd)).
Proof.
  revert wd. induction ticks as [| n IH]; intros wd.
  - simpl. rewrite app_nil_r. repeat split. apply incl_refl.
  - cbn [cleanupExpiredTokens]. rewrite run_bind, cleanupTick_run.
    set (wd1 := mkWorld _ _).
    destruct (IH wd1) as (Htr & Hl & Hk & Hincl).
    rewrite Htr, Hl, Hk. unfold wd1 at 1 2 3. cbn [trace store].
    rewrite <- app_assoc. split; [reflexivity |].
    split; [destruct (fault (tick w wd)); reflexivity |].
    split; [destruct (fault (tick w wd)); reflexivity |].
    eapply incl_tran; [exact Hincl |]. unfold wd1. cbn [store].
    destruct (fault (tick w wd)); [apply incl_refl |].
    cbn [access_tokens with_tokens]. intros r Hin.
    now apply filter_In in Hin.
Qed.

(** [X2] The loop of the sweeper sends one sweep per tick whatever
    the store answers (a failed pass is logged and the loop goes on); it
    sends nothing else, never adds a token and never touches the licenses
    or the API keys. *)
Theorem X2_sweeper_keeps_going (w : Oracle) (ticks : nat) (wd : World) :
  let after := snd (run w (cleanupExpiredTokens ticks) wd) in
  new_events wd after = repeat (event SweepTokens) ticks
  /\ licenses (store after) = licenses (store wd)
  /\ api_keys (store after) = api_keys (store wd)
  /\ incl (access_tokens (store after)) (access_tokens (store wd)).
Proof.
  intros after. subst after.
  destruct (cleanupExpiredTokens_run_trace w ticks wd) as (Htr & Hl & Hk & Hi).
  repeat split; try assumption.
  unfold new_events. rewrite Htr, skipn_app, skipn_all, Nat.sub_diag.
  reflexivity.
Qed.

Lemma filter_filter_implied {A} (p q : A -> bool) (l : list A) :
  (forall x, p x = true -> q x = true) ->
  filter p (filter q l) = filter p l.
Proof.
  intros Himp. induction l as [| x l IH]; simpl; [reflexivity |].
  destruct (q x) eqn:Q; simpl.
  - rewrite IH. reflexivity.
  - destruct (p x) eqn:P; [| exact IH].
    rewrite (Himp x P) in Q. discriminate.
Qed.

Lemma rows_live_after_sweep (tok : string) (t t' : Time) (l : list AccessToken) :
  t <= t' ->
  rows (token_live tok t') (filter (fun r => negb (token_expired t r)) l)
  = rows (token_live tok t') l.
Proof.
  intros Hle. unfold rows. rewrite filter_filter_implied; [reflexivity |].
  intros r Hlive. now rewrite (live_not_expired tok t t' r Hle Hlive).
Qed.

(** [X3] The sweep does not race with redemption: a redemption sent
    after a sweep pass (the clock not running backwards) gets the answer
    it would have got from the unswept store at the same moment. *)
Theorem X3_sweep_then_redeem (w : Oracle) (wd : World) (tok : string) :
  let swept := snd (run w V2.cleanupTick wd) in
  let unswept := mkWorld (store wd) (trace swept) in
  now (tick w wd) <= now (tick w swept) ->
  fst (run w (V2.RedeemToken tok) swept)
  = fst (run w (V2.RedeemToken tok) unswept).
Proof.
  intros swept unswept Hle. subst unswept.
  rewrite !RedeemToken_run.
  change (tick w (mkWorld (store wd) (trace swept))) with (tick w swept).
  destruct (fault (tick w swept)); [reflexivity |]. cbn [fst store].
  replace (rows (token_live tok (now (tick w swept)))
                (access_tokens (store swept)))
    with (rows (token_live tok (now (tick w swept)))
               (access_tokens (store wd))); [reflexivity |].
  subst swept. rewrite cleanupTick_run in *. cbn [store snd] in *.
  destruct (fault (tick w wd)); [reflexivity |].
  cbn [access_tokens with_tokens]. symmetry.
  now apply rows_live_after_sweep.
Qed.

(** ** The sweeper beside concurrent redemptions *)

Lemma run_service_invariant {A} (w : Oracle)
  (I : list (Prog A) -> World -> Prop) :
  (forall t pool wd,
      I pool wd ->
      I (fst (step_turn w t pool wd)) (snd (step_turn w t pool wd))) ->
  forall sched pool wd,
    I pool wd ->
    I (fst (run_service w sched pool wd)) (snd (run_service w sched pool wd)).
Proof.
  intros Hstep sched. induction sched as [| t sched IH]; intros pool wd HI.
  - exact HI.
  - simpl. specialize (Hstep t pool wd HI).
    destruct (step_turn w t pool wd) as [pool' wd']. now apply IH.
Qed.

Lemma count_filter_le {A} (p q : A -> bool) (l : list A) :
  (count p (filter q l) <= count p l)%nat.
Proof.
  unfold count. induction l as [| x l IH]; simpl; [lia |].
  destruct (q x); simpl; destruct (p x); simpl; lia.
Qed.

Lemma at_most_one_sweep (w : Oracle) (tok : string)
  (pool : list (Prog (Result unit))) (wd : World) :
  at_most_one tok pool wd ->
  at_most_one tok pool (snd (run w V2.cleanupTick wd)).
Proof.
  intros [Hall Hle]. split; [exact Hall |].
  rewrite cleanupTick_run. cbn [snd store].
  destruct (fault (tick w wd)); [exact Hle |].
  unfold rows_with in *. cbn [access_tokens with_tokens].
  pose proof (count_filter_le (fun r => String.eqb (token r) tok)
                (fun r => negb (token_expired (now (tick w wd)) r))
                (access_tokens (store wd))).
  lia.
Qed.

Lemma stays_live_sweep (w : Oracle) (tok : string) (wd : World) :
  stays_live w tok (store wd) ->
  stays_live w tok (store (snd (run w V2.cleanupTick wd))).
Proof.
  intros (r & Hin & Htok & Hlive). exists r.
  rewrite cleanupTick_run. cbn [snd store].
  destruct (fault (tick w wd)); [auto |].
  cbn [access_tokens with_tokens]. repeat split; try assumption.
  apply filter_In. split; [exact Hin |].
  apply negb_true_iff. unfold token_expired. apply Z.ltb_ge.
  specialize (Hlive (List.length (trace wd))). unfold tick. lia.
Qed.

Lemma someone_wins_sweep (w : Oracle) (tok : string) (N : nat)
  (pool : list (Prog (Result unit))) (wd : World) :
  someone_wins w tok N pool wd ->
  someone_wins w tok N pool (snd (run w V2.cleanupTick wd)).
Proof.
  intros (Hlen & Hall & Hzero). repeat split; try assumption.
  - now apply Hzero.
  - apply stays_live_sweep. now apply Hzero.
Qed.

(** [X4] The sweeper running beside N concurrent redemptions of one
    token changes nothing about their outcome: under every interleaving
    of the callers' deletes and the sweeps, with [token] a unique key at
    most one caller succeeds; when the token has a row that stays
    unexpired, no round trip fails and all N >= 1 callers have returned,
    exactly one has succeeded and N - 1 have failed with
    Unauthenticated. *)
Theorem X4_redemption_beside_sweeper
  (w : Oracle) (wd : World) (tok : string) (N : nat) (sched : list Turn) :
  let final := fst (run_service w sched (repeat (V2.RedeemToken tok) N) wd) in
  unique_tokens (store wd) ->
  (count succeeded final <= 1)%nat
  /\ (no_faults w ->
      stays_live w tok (store wd) ->
      (1 <= N)%nat ->
      all_returned final = true ->
      count succeeded final = 1%nat
      /\ count (failed_with Unauthenticated) final = (N - 1)%nat).
Proof.
  intros final U.
  assert (Hfresh : succeeded (V2.RedeemToken tok) = false) by reflexivity.
  assert (H1 : at_most_one tok final
                 (snd (run_service w sched (repeat (V2.RedeemToken tok) N) wd))).
  { apply (run_service_invariant w (at_most_one tok)).
    - intros [i |] pool wd' HI; cbn [step_turn fst snd].
      + now apply at_most_one_step.
      + now apply at_most_one_sweep.
    - split; [apply repeat_Forall; constructor |].
      rewrite (count_repeat_false _ _ _ Hfresh).
      pose proof (rows_with_unique tok (store wd) U). lia. }
  destruct H1 as [_ Hle]. split; [lia |].
  intros Hnf Hlive HN Hret.
  assert (H2 : someone_wins w tok N final
                 (snd (run_service w sched (repeat (V2.RedeemToken tok) N) wd))).
  { apply (run_service_invariant w (someone_wins w tok N)).
    - intros [i |] pool wd' HI; cbn [step_turn fst snd].
      + now apply someone_wins_step.
      + now apply someone_wins_sweep.
    - split; [apply repeat_length |].
      split; [apply repeat_Forall; constructor |].
      intros _. split; [apply repeat_Forall; reflexivity | exact Hlive]. }
  destruct H2 as (Hlen & Hall & Hzero).
  assert (Hwin : count succeeded final <> 0%nat).
  { intros Hz. destruct (Hzero Hz) as [Hallfresh _].
    destruct final as [| p rest]; [simpl in Hlen; lia |].
    inversion Hallfresh as [| x xs Hp _]; subst.
    simpl in Hret. discriminate. }
  split; [lia |].
  assert (Hsum : (count succeeded final
                  + count (failed_with Unauthenticated) final
                  = List.length final)%nat).
  { apply count_complement.
    unfold all_returned in Hret. rewrite forallb_forall in Hret.
    rewrite Forall_forall in *. intros p Hin.
    specialize (Hret p Hin). destruct (Hall p Hin); try reflexivity.
    simpl in Hret. discriminate. }
  lia.
Qed.

(** ** The lifetime of a token *)

Lemma filter_andb {A} (p q : A -> bool) (l : list A) :
  filter (fun x => p x && q x) l = filter q (filter p l).
Proof.
  induction l as [| x l IH]; simpl; [reflexivity |].
  destruct (p x); simpl; [destruct (q x) |]; rewrite IH; reflexivity.
Qed.

Lemma absent_key_no_row (k : string) (l : list AccessToken) :
  ~ In k (map token l) ->
  filter (fun x => String.eqb (token x) k) l = [].
Proof.
  induction l as [| y l IH]; simpl; intros Hnot; [reflexivity |].
  destruct (String.eqb (token y) k) eqn:E.
  - exfalso. apply Hnot. left. now apply String.eqb_eq.
  - apply IH. tauto.
Qed.

Lemma unique_row (r : AccessToken) (l : list AccessToken) :
  NoDup (map token l) -> In r l ->
  filter (fun x => String.eqb (token x) (token r)) l = [r].
Proof.
  induction l as [| x l IH]; simpl; intros Hnd Hin; [contradiction |].
  apply NoDup_cons_iff in Hnd as [Hfresh Hnd].
  destruct Hin as [-> | Hin].
  - rewrite String.eqb_refl. f_equal. now apply absent_key_no_row.
  - destruct (String.eqb (token x) (token r)) eqn:E.
    + exfalso. apply Hfresh. apply String.eqb_eq in E. rewrite E.
      now apply in_map.
    + now apply IH.
Qed.

Lemma rows_live_unique (r : AccessToken) (t : Time) (s : Store) :
  unique_tokens s -> In r (access_tokens s) ->
  rows (token_live (token r) t) (access_tokens s)
  = if t <? expires_at r then 1 else 0.
Proof.
  intros U Hin. unfold rows, token_live.
  rewrite (filter_andb (fun x => String.eqb (token x) (token r))
                       (fun x => t <? expires_at x)).
  rewrite (unique_row r _ U Hin). simpl.
  destruct (t <? expires_at r); reflexivity.
Qed.

(** [X5] With [token] a unique key, redeeming a token that has a row
    succeeds exactly when the delete reaches the store strictly before
    the row's expiry; at the instant of the expiry and later it fails
    with Unauthenticated and leaves the row in the table (for the sweep
    to collect). *)
Theorem X5_redeem_iff_before_expiry
  (w : Oracle) (wd : World) (r : AccessToken) :
  let res := run w (V2.RedeemToken (token r)) wd in
  let t := now (tick w wd) in
  unique_tokens (store wd) ->
  In r (access_tokens (store wd)) ->
  fault (tick w wd) = None ->
  (fst res = Ok tt <-> t < expires_at r)
  /\ (t < expires_at r -> ~ In r (access_tokens (store (snd res))))
  /\ (expires_at r <= t ->
      fst res = Err unauthenticated_token
      /\ access_tokens (store (snd res)) = access_tokens (store wd)).
Proof.
  intros res t U Hin Hf. subst res. rewrite RedeemToken_run, Hf. fold t.
  rewrite (rows_live_unique r t (store wd) U Hin).
  cbn [fst snd store access_tokens with_tokens].
  destruct (t <? expires_at r) eqn:E.
  - apply Z.ltb_lt in E. simpl. repeat split; auto; try lia.
    intros _ Hin'. apply filter_In in Hin' as [_ Hk].
    unfold token_live in Hk. rewrite String.eqb_refl in Hk.
    apply Z.ltb_lt in E. rewrite E in Hk. discriminate.
  - apply Z.ltb_ge in E. simpl. repeat split; try discriminate; try lia.
    apply filter_negb_none. apply filter_none.
    rewrite (rows_live_unique r t (store wd) U Hin).
    apply Z.ltb_ge in E. now rewrite E.
Qed.

(** ** What a call of ValidateLicense does to the store *)

(** The store a call of [ValidateLicense] leaves: the API keys as they
    were; the tokens as they were or without the live rows of the
    presented token; the licenses as they were or with the hwid of the
    rows of the requested key set, which happens only for a found row
    that is active and has no hwid yet. *)
Lemma ValidateLicense_store (w : Oracle) (wd : World) (ctx : Context)
  (req : ValidateRequest.t) :
  let res := run w (V2.ValidateLicense ctx req) wd in
  let lk := ValidateRequest.LicenseKey req in
  let pid := ValidateRequest.ProductId req in
  api_keys (store (snd res)) = api_keys (store wd)
  /\ (access_tokens (store (snd res)) = access_tokens (store wd)
      \/ exists tok,
           header_token ctx = Some tok
           /\ access_tokens (store (snd res))
              = filter (fun r => negb (token_live tok (now (tick w wd)) r))
                       (access_tokens (store wd)))
  /\ (licenses (store (snd res)) = licenses (store wd)
      \/ exists r,
           find (license_matches lk pid) (licenses (store wd)) = Some r
           /\ locks req r = true
           /\ licenses (store (snd res))
              = map (set_hwid (ValidateRequest.Hwid req) lk)
                    (licenses (store wd)))
  /\ (List.length (new_events wd (snd res)) <= 3)%nat.
Proof.
  intros res lk pid. subst res.
  destruct (header_token ctx) as [tok |] eqn:Ht.
  - rewrite (ValidateLicense_with_token _ _ _ _ _ Ht), RedeemToken_run.
    destruct (fault (tick w wd)) as [e |].
    + cbn [snd store]. rewrite new_events_app. simpl. repeat split; auto; lia.
    + destruct (rows _ _ =? 0).
      * cbn [snd store api_keys access_tokens licenses with_tokens].
        rewrite new_events_app. simpl.
        repeat split; auto; try lia. right. exists tok. auto.
      * rewrite checkLicense_run. unfold license_stage.
        cbn [store trace licenses with_tokens]. rewrite tick_next.
        fold lk pid.
        destruct (fault (w (S (List.length (trace wd))))).
        { cbn [snd store api_keys access_tokens licenses with_tokens].
          rewrite <- app_assoc, new_events_app. simpl.
          repeat split; auto; try lia. right. exists tok. auto. }
        destruct (find (license_matches lk pid) (licenses (store wd)))
          as [r |] eqn:F.
        2:{ cbn [snd store api_keys access_tokens licenses with_tokens].
            rewrite <- app_assoc, new_events_app. simpl.
            repeat split; auto; try lia. right. exists tok. auto. }
        destruct (locks req r) eqn:L.
        2:{ cbn [snd store api_keys access_tokens licenses with_tokens].
            rewrite <- app_assoc, new_events_app. simpl.
            repeat split; auto; try lia. right. exists tok. auto. }
        cbn [snd store]. rewrite <- !app_assoc, new_events_app. simpl.
        match goal with
        | |- context [fault ?e] => destruct (fault e)
        end; cbn [api_keys access_tokens licenses with_licenses with_tokens].
        { repeat split; auto; try lia. right. exists tok. auto. }
        repeat split; auto; try lia.
        { right. exists tok. auto. }
        right. exists r. auto.
  - rewrite ValidateLicense_run. unfold header_token in Ht.
    destruct (FromIncomingContext ctx) as [md |].
    + destruct (md_get md "x-access-token"); [| discriminate].
      cbn [snd]. unfold new_events. rewrite skipn_all. simpl.
      repeat split; auto; lia.
    + cbn [snd]. unfold new_events. rewrite skipn_all. simpl.
      repeat split; auto; lia.
Qed.

(** [X6] A call of [ValidateLicense] consumes nothing but live rows of
    the token it was given: it adds no row to the token table, keeps
    every row of another token and keeps every row that has already
    expired (redemption does not collect expired rows). *)
Theorem X6_other_tokens_untouched
  (w : Oracle) (wd : World) (ctx : Context) (req : ValidateRequest.t) :
  let after := snd (run w (V2.ValidateLicense ctx req) wd) in
  (forall r, In r (access_tokens (store after)) ->
             In r (access_tokens (store wd)))
  /\ (forall r, In r (access_tokens (store wd)) ->
        header_token ctx <> Some (token r) ->
        In r (access_tokens (store after)))
  /\ (forall r, In r (access_tokens (store wd)) ->
        expires_at r <= now (tick w wd) ->
        In r (access_tokens (store after))).
Proof.
  intros after. subst after.
  destruct (ValidateLicense_store w wd ctx req) as (_ & Htok & _).
  destruct Htok as [-> | (tok & Ht & ->)]; [auto |].
  repeat split.
  - intros r Hin. now apply filter_In in Hin.
  - intros r Hin Hne. apply filter_In. split; [exact Hin |].
    apply negb_true_iff. unfold token_live.
    destruct (String.eqb (token r) tok) eqn:E; [| reflexivity].
    apply String.eqb_eq in E. subst tok. contradiction.
  - intros r Hin Hexp. apply filter_In. split; [exact Hin |].
    apply negb_true_iff. unfold token_live.
    replace (now (tick w wd) <? expires_at r) with false;
      [apply andb_false_r |].
    symmetry. apply Z.ltb_ge. exact Hexp.
Qed.




(** [X8] The hwid check is opt-in per call: a call that carries no
    hwid, passes the token stage and whose lookup reaches the store is
    answered by the active flag of the found row alone, whatever hwid the
    row holds; it sends the delete and the lookup only and leaves the
    licenses as they were. *)
Theorem X8_no_hwid_no_check
  (w : Oracle) (wd : World) (ctx : Context) (req : ValidateRequest.t)
  (tok : string) :
  let res := run w (V2.ValidateLicense ctx req) wd in
  let lk := ValidateRequest.LicenseKey req in
  let pid := ValidateRequest.ProductId req in
  header_token ctx = Some tok ->
  fst (run w (V2.RedeemToken tok) wd) = Ok tt ->
  fault (w (S (List.length (trace wd)))) = None ->
  ValidateRequest.Hwid req = "" ->
  fst res
  = match find (license_matches lk pid) (licenses (store wd)) with
    | None => negative "License not found"
    | Some r => if is_active r then authenticated
                else negative "License is suspended"
    end
  /\ licenses (store (snd res)) = licenses (store wd)
  /\ new_events wd (snd res)
     = [event (DeleteToken tok); event (SelectLicense lk pid)].
Proof.
  intros res lk pid Ht Hok Hf Hh. subst res.
  rewrite (ValidateLicense_after_burn _ _ _ _ _ Ht Hok).
  unfold license_stage. rewrite tick_next, Hf.
  cbn [store licenses with_tokens trace]. fold lk pid.
  destruct (find (license_matches lk pid) (licenses (store wd))) as [r |].
  - unfold locks, verdict. rewrite Hh. cbn [String.eqb negb].
    rewrite andb_false_r. cbn [andb fst snd store].
    rewrite <- app_assoc, new_events_app.
    destruct (is_active r); repeat split.
  - cbn [fst snd store]. rewrite <- app_assoc, new_events_app. repeat split.
Qed.

(** ** Locking, then validating again *)

Lemma find_license_locked (lk pid h : string) (r : License) (l : list License) :
  find (license_matches lk pid) l = Some r ->
  find (license_matches lk pid) (map (set_hwid h lk) l)
  = Some (mkLicense (license_key r) (product_id r) (is_active r) (Some h)).
Proof.
  intros Hfind.
  rewrite find_map_stable by (intros; apply license_matches_set_hwid).
  rewrite Hfind. cbn [option_map]. unfold set_hwid.
  now rewrite (license_matches_has_key _ _ _ (proj2 (find_some _ _ Hfind))).
Qed.

(** [X9] First use binds, later uses compare: after a call that found
    the license active and without hwid and bound it to [h1], a later
    call for the same license that carries a non-empty hwid [h2] and
    passes the token stage is answered valid when [h2] is [h1] and "HWID
    mismatch" otherwise; it leaves the licenses as the first call left
    them. All statements are assumed to reach the store. *)
Theorem X9_lock_then_validate
  (w : Oracle) (wd : World) (ctx1 ctx2 : Context) (lk pid h1 h2 : string)
  (tok1 tok2 : string) (r : License) :
  let req1 := ValidateRequest.mk lk pid h1 in
  let req2 := ValidateRequest.mk lk pid h2 in
  let first := run w (V2.ValidateLicense ctx1 req1) wd in
  let second := run w (V2.ValidateLicense ctx2 req2) (snd first) in
  header_token ctx1 = Some tok1 ->
  header_token ctx2 = Some tok2 ->
  no_faults w ->
  fst (run w (V2.RedeemToken tok1) wd) = Ok tt ->
  fst (run w (V2.RedeemToken tok2) (snd first)) = Ok tt ->
  find (license_matches lk pid) (licenses (store wd)) = Some r ->
  is_active r = true -> hwid_unset r = true ->
  h1 <> "" -> h2 <> "" ->
  fst first = authenticated
  /\ fst second = (if String.eqb h1 h2 then authenticated
                   else negative "HWID mismatch")
  /\ licenses (store (snd second)) = licenses (store (snd first))
  /\ find (license_matches lk pid) (licenses (store (snd second)))
     = Some (mkLicense (license_key r) (product_id r) true (Some h1)).
Proof.
  intros req1 req2 first second Ht1 Ht2 Hnf Hok1 Hok2 Hfind Hact Hunset Hh1 Hh2.
  apply String.eqb_neq in Hh1, Hh2.
  assert (Hfirst : first =
            (authenticated,
             mkWorld
               (with_licenses
                  (with_tokens (store wd)
                     (filter (fun x => negb (token_live tok1 (now (tick w wd)) x))
                             (access_tokens (store wd))))
                  (map (set_hwid h1 lk) (licenses (store wd))))
               (trace wd ++ [event (DeleteToken tok1);
                             event (SelectLicense lk pid);
                             event (UpdateHwid h1 lk)]))).
  { subst first. rewrite (ValidateLicense_after_burn _ _ _ _ _ Ht1 Hok1).
    unfold license_stage. unfold tick. rewrite !Hnf.
    cbn [store licenses with_tokens trace ValidateRequest.LicenseKey
         ValidateRequest.ProductId ValidateRequest.Hwid req1].
    rewrite Hfind. unfold locks.
    cbn [ValidateRequest.Hwid req1]. rewrite Hact, Hunset, Hh1.
    cbn [negb andb]. rewrite <- !app_assoc. reflexivity. }
  subst second. rewrite Hfirst in *. cbn [fst snd] in *.
  split; [reflexivity |].
  rewrite (ValidateLicense_after_burn _ _ _ _ _ Ht2 Hok2).
  unfold license_stage. unfold tick. rewrite !Hnf.
  cbn [store licenses with_tokens with_licenses trace
       ValidateRequest.LicenseKey ValidateRequest.ProductId
       ValidateRequest.Hwid req2].
  rewrite (find_license_locked lk pid h1 r _ Hfind), Hact.
  unfold locks, verdict, hwid_unset.
  cbn [is_active hwid ValidateRequest.Hwid req2]. rewrite Hh1, Hh2.
  cbn [negb andb fst snd store licenses with_tokens with_licenses].
  destruct (String.eqb h1 h2); repeat split;
    rewrite (find_license_locked lk pid h1 r _ Hfind), Hact; reflexivity.
Qed.

(** ** Administration and validation *)

Lemma find_ext_in {A} (p q : A -> bool) (l : list A) :
  (forall x, In x l -> p x = q x) -> find p l = find q l.
Proof.
  induction l as [| x l IH]; simpl; intros H; [reflexivity |].
  rewrite (H x (or_introl eq_refl)).
  destruct (q x); [reflexivity |]. apply IH. auto.
Qed.

Lemma existsb_false_all {A} (p : A -> bool) (l : list A) (x : A) :
  existsb p l = false -> In x l -> p x = false.
Proof.
  intros Hex Hin. destruct (p x) eqn:E; [| reflexivity].
  assert (existsb p l = true) by (apply existsb_exists; eauto). congruence.
Qed.

(** After the upsert the rows under the key are the rows of the key and
    the product. *)
Lemma upsert_license_matches (lk pid : string) (a : bool) (s : Store) :
  find (license_matches lk pid) (licenses (snd (upsert_license lk pid a s)))
  = license_of lk (snd (upsert_license lk pid a s)).
Proof.
  unfold license_of. apply find_ext_in. intros x Hin.
  unfold upsert_license in Hin.
  destruct (existsb (has_key lk) (licenses s)) eqn:E;
    cbn [snd licenses with_licenses] in Hin.
  - apply in_map_iff in Hin as (y & <- & _). unfold overwrite.
    destruct (has_key lk y) eqn:K.
    + unfold license_matches, has_key in *. cbn [license_key product_id].
      rewrite K, String.eqb_refl. reflexivity.
    + unfold license_matches, has_key in *. rewrite K. reflexivity.
  - apply in_app_or in Hin as [Hin | [<- | []]].
    + pose proof (existsb_false_all _ _ _ E Hin) as K.
      unfold license_matches, has_key in *. rewrite K. reflexivity.
    + unfold license_matches, has_key. cbn [license_key product_id].
      rewrite !String.eqb_refl. reflexivity.
Qed.

(** [X10] What the administrator writes is what validation reads:
    after an [UpdateLicense] that passed the admin check and reached the
    store, a [ValidateLicense] for the same key and product that carries
    no hwid, passes the token stage and reaches the store answers valid
    when the license was written active and "License is suspended" when
    it was written inactive, whatever the table held before. *)
Theorem X10_upsert_then_validate
  (environ : Environ) (w : Oracle) (wd : World) (actx vctx : Context)
  (lk pid : string) (a : bool) (tok : string) :
  let written := snd (run w (V2.UpdateLicense environ actx
                               (UpdateLicenseRequest.mk lk pid a)) wd) in
  let res := run w (V2.ValidateLicense vctx (ValidateRequest.mk lk pid ""))
                 written in
  V2.checkAdmin environ actx = None ->
  fault (tick w wd) = None ->
  header_token vctx = Some tok ->
  fst (run w (V2.RedeemToken tok) written) = Ok tt ->
  fault (w (S (List.length (trace written)))) = None ->
  fst res = (if a then authenticated else negative "License is suspended")
  /\ licenses (store (snd res)) = licenses (store written).
Proof.
  intros written res Hadm Hf Ht Hok Hf2. subst res.
  rewrite (ValidateLicense_after_burn _ _ _ _ _ Ht Hok).
  unfold license_stage. rewrite tick_next, Hf2.
  cbn [store licenses with_tokens trace ValidateRequest.LicenseKey
       ValidateRequest.ProductId ValidateRequest.Hwid].
  assert (Hrow : exists hw,
             find (license_matches lk pid) (licenses (store written))
             = Some (mkLicense lk pid a hw)).
  { subst written. rewrite (UpdateLicense_run _ _ _ _ _ Hadm), Hf.
    cbn [snd store perform UpdateLicenseRequest.LicenseKey
         UpdateLicenseRequest.ProductId UpdateLicenseRequest.IsActive].
    rewrite upsert_license_matches, upsert_license_of. eauto. }
  destruct Hrow as [hw Hrow]. rewrite Hrow.
  unfold locks, verdict. cbn [is_active ValidateRequest.Hwid String.eqb negb].
  rewrite andb_false_r. cbn [andb fst snd store].
  destruct a; split; reflexivity.
Qed.

Lemma DeleteLicense_rows (lk : string) (l : list License) :
  find (has_key lk) (filter (fun r => negb (has_key lk r)) l) = None.
Proof.
  induction l as [| x l IH]; simpl; [reflexivity |].
  destruct (has_key lk x) eqn:K; simpl; [exact IH |].
  rewrite K. exact IH.
Qed.

Lemma find_none_weaken {A} (p q : A -> bool) (l : list A) :
  (forall x, q x = true -> p x = true) ->
  find p l = None -> find q l = None.
Proof.
  intros Himp. induction l as [| x l IH]; simpl; [reflexivity |].
  destruct (p x) eqn:P; [discriminate |].
  destruct (q x) eqn:Q; [| exact IH].
  rewrite (Himp x Q) in P. discriminate.
Qed.

(** [X11] [DeleteLicense] that passed the admin check and reached the
    store succeeds whether or not the key has a row: the rows left are
    exactly the old rows of the other keys; when the key had no row the
    store is as it was; tokens and API keys are not touched. Afterwards a
    [ValidateLicense] for this key (any product, any hwid) that passes the
    token stage and reaches the store answers "License not found". *)
Theorem X11_delete_license
  (environ : Environ) (w : Oracle) (wd : World) (ctx : Context)
  (req : DeleteLicenseRequest.t) :
  let lk := DeleteLicenseRequest.LicenseKey req in
  let res := run w (V2.DeleteLicense environ ctx req) wd in
  V2.checkAdmin environ ctx = None ->
  fault (tick w wd) = None ->
  fst res = Ok tt
  /\ (forall r, In r (licenses (store (snd res)))
                <-> In r (licenses (store wd)) /\ license_key r <> lk)
  /\ (license_of lk (store wd) = None -> store (snd res) = store wd)
  /\ access_tokens (store (snd res)) = access_tokens (store wd)
  /\ api_keys (store (snd res)) = api_keys (store wd)
  /\ (forall vctx pid h tok,
        header_token vctx = Some tok ->
        fst (run w (V2.RedeemToken tok) (snd res)) = Ok tt ->
        fault (w (S (List.length (trace (snd res))))) = None ->
        fst (run w (V2.ValidateLicense vctx (ValidateRequest.mk lk pid h))
                 (snd res))
        = negative "License not found").
Proof.
  intros lk res Hadm Hf. subst res.
  rewrite (DeleteLicense_run _ _ _ _ _ Hadm), Hf. fold lk.
  cbn [fst snd perform store licenses access_tokens api_keys with_licenses].
  split; [reflexivity |].
  split.
  { intros r. rewrite filter_In. unfold has_key.
    rewrite negb_true_iff, String.eqb_neq. reflexivity. }
  split.
  { intros Hnone. unfold license_of in Hnone.
    destruct (store wd) as [ks ts ls]. unfold with_licenses.
    cbn [api_keys access_tokens licenses] in *. f_equal.
    clear -Hnone. induction ls as [| x ls IH]; simpl in *; [reflexivity |].
    destruct (has_key lk x); [discriminate |]. simpl. f_equal. auto. }
  split; [reflexivity |]. split; [reflexivity |].
  intros vctx pid h tok Ht Hok Hf2.
  rewrite (ValidateLicense_after_burn _ _ _ _ _ Ht Hok).
  unfold license_stage.
  cbn [store licenses with_tokens with_licenses trace
       ValidateRequest.LicenseKey ValidateRequest.ProductId].
  rewrite tick_next. cbn [trace] in Hf2. rewrite Hf2.
  rewrite (find_none_weaken (has_key lk) (license_matches lk pid));
    [reflexivity | apply license_matches_has_key | apply DeleteLicense_rows].
Qed.

Lemma checkAdmin_refusal (environ : Environ) (ctx : Context) (st : Status) :
  V2.checkAdmin environ ctx = Some st ->
  (FromIncomingContext ctx = None
   /\ st = status_Error Unauthenticated "metadata missing")
  \/ (FromIncomingContext ctx <> None
      /\ st = status_Error PermissionDenied "invalid admin secret").
Proof.
  unfold V2.checkAdmin.
  destruct (FromIncomingContext ctx) as [md |].
  - intros H. right. split; [discriminate |].
    destruct (md_get md "x-admin-secret") as [| v rest].
    + now inversion H.
    + destruct (negb _); [now inversion H | discriminate].
  - intros H. left. split; [reflexivity | now inversion H].
Qed.

(** [X12] An admin operation that does not succeed changes nothing:
    when [checkAdmin] refuses, [UpdateLicense] and [DeleteLicense] return
    its status without sending a statement (Unauthenticated exactly when
    the request has no metadata, PermissionDenied otherwise); when the
    statement fails they return Internal with the store as it was. They
    succeed exactly when the check passes and the statement reaches the
    store. *)
Theorem X12_admin_failure_changes_nothing
  (environ : Environ) (w : Oracle) (wd : World) (ctx : Context)
  (ureq : UpdateLicenseRequest.t) (dreq : DeleteLicenseRequest.t) :
  let upd := run w (V2.UpdateLicense environ ctx ureq) wd in
  let del := run w (V2.DeleteLicense environ ctx dreq) wd in
  (forall st, V2.checkAdmin environ ctx = Some st ->
     upd = (Err st, wd) /\ del = (Err st, wd)
     /\ (code st = Unauthenticated <-> FromIncomingContext ctx = None)
     /\ (code st = PermissionDenied <-> FromIncomingContext ctx <> None))
  /\ (forall e, V2.checkAdmin environ ctx = None ->
        fault (tick w wd) = Some e ->
        fst upd = Err (status_Errorf Internal "upsert failed: " e)
        /\ fst del = Err (status_Errorf Internal "delete failed: " e))
  /\ (is_ok (fst upd) = true
      <-> V2.checkAdmin environ ctx = None /\ fault (tick w wd) = None)
  /\ (is_ok (fst del) = true
      <-> V2.checkAdmin environ ctx = None /\ fault (tick w wd) = None)
  /\ (is_ok (fst upd) = false -> store (snd upd) = store wd)
  /\ (is_ok (fst del) = false -> store (snd del) = store wd).
Proof.
  intros upd del. subst upd del.
  destruct (V2.checkAdmin environ ctx) as [st |] eqn:Hadm.
  - unfold V2.UpdateLicense, V2.DeleteLicense. rewrite Hadm. cbn [run fst snd].
    split.
    { intros st' H. inversion H; subst st'.
      split; [reflexivity |]. split; [reflexivity |].
      destruct (checkAdmin_refusal _ _ _ Hadm) as [[Hn ->] | [Hn ->]];
        cbn [code status_Error]; split; split; intros H'; try assumption;
        try reflexivity; try discriminate; contradiction. }
    split; [discriminate |].
    repeat split; try discriminate.
    + intros [H _]. discriminate.
    + intros [H _]. discriminate.
  - rewrite (UpdateLicense_run _ _ _ _ _ Hadm),
            (DeleteLicense_run _ _ _ _ _ Hadm).
    split; [discriminate |].
    destruct (fault (tick w wd)) as [e |]; cbn [fst snd is_ok store].
    + split; [intros e' _ H; inversion H; subst; split; reflexivity |].
      repeat split; try discriminate.
      * intros [_ H]. discriminate.
      * intros [_ H]. discriminate.
    + split; [discriminate |]. repeat split; discriminate.
Qed.

(** ** Issuing tokens: what failure leaves behind *)

(** [X13] [GetAuthToken] of the later revision fails closed: a call
    that does not return a token leaves the store as it was; a failing
    key lookup is returned as Internal and ends the call before any
    insert; the insert is sent only after the lookup reached the store
    and found a valid key; at most two statements are sent and the
    licenses and API keys are never written. *)
Theorem X13_issue_fails_closed
  (w : Oracle) (wd : World) (ctx : Context) (req : GetTokenRequest.t) :
  let k := GetTokenRequest.ApiKey req in
  let res := run w (V2.GetAuthToken ctx req) wd in
  (is_ok (fst res) = false -> store (snd res) = store wd)
  /\ (forall e, k <> "" -> fault (tick w wd) = Some e ->
        fst res = Err (status_Errorf Internal "DB Check Failed: " e)
        /\ new_events wd (snd res) = [event (ApiKeyExists k)])
  /\ (forall e, k <> "" -> fault (tick w wd) = None ->
        existsb (api_key_valid k (now (tick w wd))) (api_keys (store wd)) = true ->
        fault (w (S (List.length (trace wd)))) = Some e ->
        fst res = Err (status_Errorf Internal "failed to generate token: " e))
  /\ (no_token_insert (new_events wd (snd res)) = false ->
      k <> "" /\ fault (tick w wd) = None
      /\ existsb (api_key_valid k (now (tick w wd))) (api_keys (store wd)) = true)
  /\ (List.length (new_events wd (snd res)) <= 2)%nat
  /\ api_keys (store (snd res)) = api_keys (store wd)
  /\ licenses (store (snd res)) = licenses (store wd).
Proof.
  intros k res. subst res. rewrite GetAuthToken_run. fold k.
  destruct (String.eqb k "") eqn:Ek.
  { apply String.eqb_eq in Ek. cbn [fst snd].
    unfold new_events. rewrite skipn_all. simpl.
    repeat split; auto; try contradiction; try discriminate; lia. }
  apply String.eqb_neq in Ek.
  destruct (fault (tick w wd)) as [e0 |].
  { cbn [fst snd store]. rewrite new_events_app. simpl.
    repeat split; auto; try discriminate; try lia; congruence. }
  destruct (existsb _ (api_keys (store wd))); cbn [negb].
  2:{ cbn [fst snd store]. rewrite new_events_app. simpl.
      repeat split; auto; try discriminate; lia. }
  destruct (fault (w (S (List.length (trace wd))))) as [e1 |].
  { cbn [fst snd store]. rewrite <- app_assoc, new_events_app. simpl.
    repeat split; auto; try discriminate; try lia; congruence. }
  destruct (token_taken _ _);
    cbn [fst snd store is_ok api_keys licenses with_tokens];
    rewrite <- app_assoc, new_events_app; simpl;
    repeat split; auto; try discriminate; lia.
Qed.

(** [X14] [GetAuthToken] of the earlier revision issues to anyone: it
    sends the insert and nothing else, so it never reads the API keys;
    when the insert reaches the store and the drawn identifier is free it
    returns the identifier with [ExpiresInSeconds = 30] and has appended
    one row, also on a store without any API key; a failing insert is
    returned as Internal with the store as it was. *)
Theorem X14_earlier_revision_issues_to_anyone
  (w : Oracle) (wd : World) (ctx : Context) :
  let res := run w (V1.GetAuthToken ctx tt) wd in
  let e := tick w wd in
  new_events wd (snd res) = [event InsertToken]
  /\ (fault e = None -> token_taken (uuid e) (store wd) = false ->
      fst res = Ok (AuthTokenResponse.mk (uuid e) 30)
      /\ exists row, token row = uuid e
           /\ access_tokens (store (snd res))
              = (access_tokens (store wd) ++ [row])%list)
  /\ (forall msg, fault e = Some msg ->
        fst res = Err (status_Errorf Internal "failed to generate token: " msg)
        /\ store (snd res) = store wd)
  /\ (fault e = None -> token_taken (uuid e) (store wd) = true ->
      err_code (fst res) = Some Internal /\ store (snd res) = store wd).
Proof.
  intros res e. subst res. unfold V1.GetAuthToken. cbn [run].
  destruct (fault e) as [msg |] eqn:Hf; unfold e in Hf.
  - rewrite (step_fault _ _ _ msg Hf). cbn [failed fst snd run store].
    rewrite new_events_app.
    repeat split; try discriminate; congruence.
  - rewrite (step_ok _ _ _ Hf). cbn [perform]. unfold insert_token.
    fold e. fold (token_taken (uuid e) (store wd)).
    destruct (token_taken (uuid e) (store wd));
      cbn [fst snd run store access_tokens with_tokens];
      rewrite new_events_app; repeat split; try discriminate.
    eexists. split; [| reflexivity]. reflexivity.
Qed.

(** ** One row per license key *)

Lemma exec_keeps_unique_license_keys {R} (q : Stmt R) (e : Env) (s : Store) :
  unique_license_keys s -> unique_license_keys (snd (exec q e s)).
Proof.
  intros Ul. unfold exec. destruct (fault e); [assumption |].
  unfold unique_license_keys in *.
  destruct q; cbn [perform snd licenses with_tokens with_licenses];
    try assumption.
  - unfold insert_token.
    destruct (existsb _ (access_tokens s)); assumption.
  - now rewrite map_key_set_hwid.
  - unfold upsert_license.
    destruct (existsb (has_key lk) (licenses s)) eqn:E;
      cbn [snd licenses with_licenses].
    + now rewrite map_key_overwrite.
    + now apply (NoDup_map_snoc license_key (mkLicense lk pid active None)).
  - now apply unique_after_filter.
Qed.

Lemma run_keeps {A} (I : Store -> Prop) (w : Oracle) (p : Prog A) :
  (forall R (q : Stmt R) e s, I s -> I (snd (exec q e s))) ->
  forall wd, I (store wd) -> I (store (snd (run w p wd))).
Proof.
  intros Hexec. induction p as [a | R q k IH]; intros wd HI; [exact HI |].
  cbn [run]. unfold step.
  specialize (Hexec R q (tick w wd) (store wd) HI).
  destruct (exec q (tick w wd) (store wd)) as [r s'].
  apply IH. exact Hexec.
Qed.

Lemma step_thread_keeps {A} (I : Store -> Prop) (w : Oracle) (i : nat)
  (pool : list (Prog A)) (wd : World) :
  (forall R (q : Stmt R) e s, I s -> I (snd (exec q e s))) ->
  I (store wd) -> I (store (snd (step_thread w i pool wd))).
Proof.
  intros Hexec HI. unfold step_thread.
  destruct (nth_error pool i) as [[a | R q k] |]; try exact HI.
  unfold step. specialize (Hexec R q (tick w wd) (store wd) HI).
  destruct (exec q (tick w wd) (store wd)) as [r s']. exact Hexec.
Qed.

(** [X15] No operation of the service ever leaves two license rows
    with one key: starting from a table in which the keys are unique,
    every handler of either revision, run alone on any request, and every
    interleaving of any handlers with the sweeper, whatever the store
    answers, leaves the keys unique (the upsert writes over the row of
    its key instead of adding one). *)
Theorem X15_one_row_per_license_key (w : Oracle) (wd : World) :
  unique_license_keys (store wd) ->
  (forall environ ctx vreq ureq dreq treq,
      unique_license_keys
        (store (snd (run w (V2.ValidateLicense ctx vreq) wd)))
      /\ unique_license_keys
           (store (snd (run w (V2.UpdateLicense environ ctx ureq) wd)))
      /\ unique_license_keys
           (store (snd (run w (V2.DeleteLicense environ ctx dreq) wd)))
      /\ unique_license_keys
           (store (snd (run w (V2.GetAuthToken ctx treq) wd)))
      /\ unique_license_keys
           (store (snd (run w (V1.ValidateLicense ctx vreq) wd)))
      /\ unique_license_keys
           (store (snd (run w (V1.UpdateLicense environ ctx ureq) wd)))
      /\ unique_license_keys
           (store (snd (run w (V1.DeleteLicense environ ctx dreq) wd)))
      /\ unique_license_keys
           (store (snd (run w (V1.GetAuthToken ctx tt) wd))))
  /\ (forall A (pool : list (Prog A)) sched,
        unique_license_keys (store (snd (run_service w sched pool wd)))).
Proof.
  intros U.
  pose proof (@exec_keeps_unique_license_keys) as Hexec.
  split.
  - intros environ ctx vreq ureq dreq treq.
    repeat split; apply (run_keeps unique_license_keys); auto.
  - intros A pool sched. revert pool wd U.
    induction sched as [| t sched IH]; intros pool wd U; [exact U |].
    cbn [run_service].
    destruct (step_turn w t pool wd) as [pool' wd'] eqn:E.
    apply IH.
    destruct t as [i |]; cbn [step_turn] in E.
    + replace wd' with (snd (step_thread w i pool wd))
        by (rewrite E; reflexivity).
      apply (step_thread_keeps unique_license_keys); auto.
    + assert (wd' = snd (run w V2.cleanupTick wd)) as -> by congruence.
      apply (run_keeps unique_license_keys); auto.
Qed.

(** ** Two first uses at once *)

Lemma stays_live_other (w : Oracle) (tok tok' : string) (t : Time) (s : Store) :
  tok <> tok' ->
  stays_live w tok s ->
  stays_live w tok
    (with_tokens s (filter (fun r => negb (token_live tok' t r))
                           (access_tokens s))).
Proof.
  intros Hne (r & Hin & Htok & Hlive). exists r.
  cbn [access_tokens with_tokens]. repeat split; try assumption.
  apply filter_In. split; [exact Hin |].
  apply negb_true_iff. unfold token_live.
  destruct (String.eqb (token r) tok') eqn:E; [| reflexivity].
  apply String.eqb_eq in E. congruence.
Qed.

Lemma run_schedule_cons {A} (w : Oracle) (i : nat) (sched : list nat)
  (pool pool' : list (Prog A)) (wd wd' : World) :
  step_thread w i pool wd = (pool', wd') ->
  run_schedule w (i :: sched) pool wd = run_schedule w sched pool' wd'.
Proof.
  intros H. cbn [run_schedule]. rewrite H. reflexivity.
Qed.

(** A caller at the token stage whose token is live: the delete burns it
    and the caller moves on to the license stage. *)
Lemma thread_burns (w : Oracle) (i : nat)
  (pool : list (Prog (Result ValidateResponse.t))) (wd : World)
  (ctx : Context) (req : ValidateRequest.t) (tok : string) :
  nth_error pool i = Some (V2.ValidateLicense ctx req) ->
  header_token ctx = Some tok ->
  fault (tick w wd) = None ->
  rows (token_live tok (now (tick w wd))) (access_tokens (store wd)) <> 0 ->
  step_thread w i pool wd =
  (set_nth i (V2.checkLicense req) pool,
   mkWorld (with_tokens (store wd)
              (filter (fun r => negb (token_live tok (now (tick w wd)) r))
                      (access_tokens (store wd))))
           (trace wd ++ [event (DeleteToken tok)])).
Proof.
  intros Hnth Ht Hf Hrows. unfold step_thread. rewrite Hnth.
  apply header_token_some in Ht as (md & rest & Hmd & Hget).
  unfold V2.ValidateLicense. rewrite Hmd, Hget.
  cbn [bind V2.RedeemToken]. rewrite (step_ok _ _ _ Hf).
  cbn [perform fst snd]. apply Z.eqb_neq in Hrows. rewrite Hrows.
  reflexivity.
Qed.

(** A caller at the license stage that finds the license active and
    without hwid: its next statement is the update. *)
Lemma thread_finds_unlocked (w : Oracle) (i : nat)
  (pool : list (Prog (Result ValidateResponse.t))) (wd : World)
  (req : ValidateRequest.t) (r : License) :
  let lk := ValidateRequest.LicenseKey req in
  let pid := ValidateRequest.ProductId req in
  nth_error pool i = Some (V2.checkLicense req) ->
  fault (tick w wd) = None ->
  find (license_matches lk pid) (licenses (store wd)) = Some r ->
  locks req r = true ->
  step_thread w i pool wd =
  (set_nth i (Do (UpdateHwid (ValidateRequest.Hwid req) lk)
                 (fun _ => Ret authenticated)) pool,
   mkWorld (store wd) (trace wd ++ [event (SelectLicense lk pid)])).
Proof.
  intros lk pid Hnth Hf Hfind Hlocks. unfold step_thread. rewrite Hnth.
  unfold V2.checkLicense. fold lk pid. rewrite (step_ok _ _ _ Hf).
  cbn [perform fst snd]. rewrite Hfind.
  unfold locks in Hlocks.
  apply andb_prop in Hlocks as [Hlocks Hunset].
  apply andb_prop in Hlocks as [Hact Hh].
  rewrite Hact, Hh, scan_null_unset, Hunset. reflexivity.
Qed.

(** A caller whose next statement is the update: the hwid of the rows of
    the key is set and the caller returns valid. *)
Lemma thread_locks (w : Oracle) (i : nat)
  (pool : list (Prog (Result ValidateResponse.t))) (wd : World)
  (h lk : string) :
  nth_error pool i = Some (Do (UpdateHwid h lk) (fun _ => Ret authenticated)) ->
  fault (tick w wd) = None ->
  step_thread w i pool wd =
  (set_nth i (Ret authenticated) pool,
   mkWorld (with_licenses (store wd) (map (set_hwid h lk) (licenses (store wd))))
           (trace wd ++ [event (UpdateHwid h lk)])).
Proof.
  intros Hnth Hf. unfold step_thread. rewrite Hnth.
  rewrite (step_ok _ _ _ Hf). reflexivity.
Qed.

(** [X16] The first-use binding is not atomic: when two callers with
    live tokens validate the same active license that has no hwid yet,
    each with its own hwid, and both lookups reach the store before
    either update, both are answered valid and the store ends up bound to
    the hwid of the later update, so the caller of the earlier update was
    told valid for a hwid the license is not bound to. *)
Theorem X16_concurrent_first_use
  (w : Oracle) (wd : World) (ctx1 ctx2 : Context) (lk pid h1 h2 : string)
  (tok1 tok2 : string) (r : License) :
  let req1 := ValidateRequest.mk lk pid h1 in
  let req2 := ValidateRequest.mk lk pid h2 in
  let pool := [V2.ValidateLicense ctx1 req1; V2.ValidateLicense ctx2 req2] in
  let res := run_schedule w [0; 1; 0; 1; 0; 1]%nat pool wd in
  header_token ctx1 = Some tok1 ->
  header_token ctx2 = Some tok2 ->
  tok1 <> tok2 ->
  no_faults w ->
  stays_live w tok1 (store wd) ->
  stays_live w tok2 (store wd) ->
  find (license_matches lk pid) (licenses (store wd)) = Some r ->
  is_active r = true -> hwid_unset r = true ->
  h1 <> "" -> h2 <> "" ->
  fst res = [Ret authenticated; Ret authenticated]
  /\ find (license_matches lk pid) (licenses (store (snd res)))
     = Some (mkLicense (license_key r) (product_id r) true (Some h2)).
Proof.
  intros req1 req2 pool res Ht1 Ht2 Hne Hnf Hl1 Hl2 Hfind Hact Hunset Hh1 Hh2.
  apply String.eqb_neq in Hh1, Hh2.
  assert (Hlocks1 : locks req1 r = true)
    by (unfold locks, req1; cbn [ValidateRequest.Hwid];
        now rewrite Hact, Hunset, Hh1).
  assert (Hlocks2 : locks req2 r = true)
    by (unfold locks, req2; cbn [ValidateRequest.Hwid];
        now rewrite Hact, Hunset, Hh2).
  assert (Hok : forall wd', fault (tick w wd') = None)
    by (intros wd'; apply Hnf).
  subst res pool.
  erewrite run_schedule_cons;
    [| apply (thread_burns w 0 _ wd ctx1 req1 tok1);
       [reflexivity | exact Ht1 | apply Hok | now apply stays_live_rows]].
  cbn [set_nth].
  erewrite run_schedule_cons;
    [| apply (thread_burns w 1 _ _ ctx2 req2 tok2);
       [reflexivity | exact Ht2 | apply Hok
        | apply stays_live_rows; cbn [store]; apply stays_live_other;
          [congruence | exact Hl2]]].
  cbn [set_nth store access_tokens with_tokens].
  erewrite run_schedule_cons;
    [| apply (thread_finds_unlocked w 0 _ _ req1 r);
       [reflexivity | apply Hok | exact Hfind | exact Hlocks1]].
  cbn [set_nth store].
  erewrite run_schedule_cons;
    [| apply (thread_finds_unlocked w 1 _ _ req2 r);
       [reflexivity | apply Hok | exact Hfind | exact Hlocks2]].
  cbn [set_nth store ValidateRequest.Hwid ValidateRequest.LicenseKey
       ValidateRequest.ProductId req1 req2].
  erewrite run_schedule_cons;
    [| apply (thread_locks w 0 _ _ h1 lk); [reflexivity | apply Hok]].
  cbn [set_nth store licenses with_licenses with_tokens].
  erewrite run_schedule_cons;
    [| apply (thread_locks w 1 _ _ h2 lk); [reflexivity | apply Hok]].
  cbn [run_schedule set_nth fst snd store licenses with_licenses].
  split; [reflexivity |].
  rewrite (find_license_locked lk pid h2 _ _
             (find_license_locked lk pid h1 r _ Hfind)).
  cbn [license_key product_id is_active]. now rewrite Hact.
Qed.

(** ** The gateway: header names and CORS *)

Lemma lower_upper_byte (c : Ascii.ascii) :
  negb (is_upper c) = true ->
  lower_byte (upper_byte c) = c
  /\ ((Ascii.nat_of_ascii c <? 128)%nat = true ->
      (Ascii.nat_of_ascii (upper_byte c) <? 128)%nat = true).
Proof.
  destruct c as [[] [] [] [] [] [] [] []]; vm_compute; intros H;
    try discriminate H; split; auto.
Qed.

Lemma upper_lower_byte (c : Ascii.ascii) :
  (if is_upper c then upper_byte (lower_byte c) else lower_byte c) = c.
Proof.
  destruct c as [[] [] [] [] [] [] [] []]; vm_compute; reflexivity.
Qed.

Lemma lower_byte_is_lower (c : Ascii.ascii) :
  (Ascii.nat_of_ascii c <? 128)%nat = true ->
  (Ascii.nat_of_ascii (lower_byte c) <? 128)%nat = true
  /\ is_upper (lower_byte c) = false.
Proof.
  destruct c as [[] [] [] [] [] [] [] []]; vm_compute; intros H;
    try discriminate H; split; auto.
Qed.

Lemma recase_lowered (mask : list bool) (s : string) :
  lower_name s = true ->
  isASCII (recase mask s) = true /\ lower_bytes (recase mask s) = s.
Proof.
  revert mask. induction s as [| c s IH]; intros mask Hs;
    [destruct mask; split; reflexivity |].
  cbn [lower_name] in Hs.
  apply andb_prop in Hs as [Hc Hs]. apply andb_prop in Hc as [Hascii Hlow].
  destruct (lower_upper_byte c Hlow) as [Hround Hup].
  assert (Hself : lower_byte c = c).
  { unfold lower_byte. apply negb_true_iff in Hlow. now rewrite Hlow. }
  destruct mask as [| b mask]; cbn [recase isASCII lower_bytes].
  - assert (Hnil : forall s', lower_name s' = true ->
               isASCII s' = true /\ lower_bytes s' = s').
    { clear. induction s' as [| c s' IH']; [split; reflexivity |].
      cbn [lower_name isASCII lower_bytes]. intros H.
      apply andb_prop in H as [H Hs']. apply andb_prop in H as [Ha Hl].
      destruct (IH' Hs') as [-> ->]. rewrite Ha.
      unfold lower_byte. apply negb_true_iff in Hl. now rewrite Hl. }
    destruct (Hnil s Hs) as [-> ->]. now rewrite Hascii, Hself.
  - destruct (IH mask Hs) as [-> ->].
    destruct b; [| now rewrite Hascii, Hself].
    now rewrite (Hup Hascii), Hround.
Qed.

Lemma casing_recase (s : string) :
  recase (casing s) (lower_bytes s) = s.
Proof.
  induction s as [| c s IH]; [reflexivity |].
  cbn [casing lower_bytes recase]. rewrite IH. f_equal.
  apply upper_lower_byte.
Qed.

(** [X17] [customMatcher] admits exactly the casings of its two header
    names: every way of writing x-access-token (or x-admin-secret) in
    upper and lower case, such as the canonical X-Access-Token, is passed
    on under the lower case name the handlers read, without asking the
    default matcher; and a pure ASCII key that is not such a casing is
    decided by the default matcher on the key as it was given. *)
Theorem X17_header_names_in_any_casing
  (mapUnicodeToLower : string -> string)
  (DefaultHeaderMatcher : string -> string * bool) :
  let matcher := customMatcher mapUnicodeToLower DefaultHeaderMatcher in
  (forall mask,
      matcher (recase mask "x-access-token") = ("x-access-token", true)
      /\ matcher (recase mask "x-admin-secret") = ("x-admin-secret", true))
  /\ (forall key, isASCII key = true ->
        (forall mask, key <> recase mask "x-access-token") ->
        (forall mask, key <> recase mask "x-admin-secret") ->
        matcher key = DefaultHeaderMatcher key).
Proof.
  intros matcher. subst matcher. split.
  - intros mask. unfold customMatcher, ToLower.
    destruct (recase_lowered mask "x-access-token" eq_refl) as [-> ->].
    destruct (recase_lowered mask "x-admin-secret" eq_refl) as [-> ->].
    split; reflexivity.
  - intros key Hascii Hno1 Hno2. unfold customMatcher, ToLower.
    rewrite Hascii.
    destruct (String.eqb (lower_bytes key) "x-access-token") eqn:E1.
    { apply String.eqb_eq in E1. exfalso. apply (Hno1 (casing key)).
      rewrite <- E1. symmetry. apply casing_recase. }
    destruct (String.eqb (lower_bytes key) "x-admin-secret") eqn:E2.
    { apply String.eqb_eq in E2. exfalso. apply (Hno2 (casing key)).
      rewrite <- E2. symmetry. apply casing_recase. }
    reflexivity.
Qed.

Lemma header_get_set_same (k v : string) (h : list (string * list string)) :
  md_get (header_set k v h) k = [v].
Proof.
  induction h as [| [k' vs] h IH]; simpl.
  - now rewrite String.eqb_refl.
  - destruct (String.eqb k' k) eqn:E; simpl.
    + now rewrite String.eqb_refl.
    + now rewrite E.
Qed.

Lemma header_get_set_other (k k0 v : string) (h : list (string * list string)) :
  k0 <> k -> md_get (header_set k v h) k0 = md_get h k0.
Proof.
  intros Hne. induction h as [| [k' vs] h IH]; simpl.
  - apply String.eqb_neq in Hne. rewrite String.eqb_sym. now rewrite Hne.
  - destruct (String.eqb k' k) eqn:E; simpl.
    + apply String.eqb_eq in E. subst k'.
      apply String.eqb_neq in Hne. rewrite String.eqb_sym in Hne.
      now rewrite Hne.
    + destruct (String.eqb k' k0); [reflexivity | exact IH].
Qed.

(** [X18] [corsMiddleware]: an OPTIONS request is answered by the
    middleware alone, with status 200 and whatever the inner handler is,
    so a preflight never reaches the service; every other request reaches
    the inner handler unchanged, on a response in which the three CORS
    headers hold exactly the configured values (earlier values are
    replaced, all other headers and the status are as they were). *)
Theorem X18_cors_preflight_and_headers
  (h : Handler) (w : ResponseWriter) (r : Request) :
  let allow (x : ResponseWriter) :=
      Header_Get "Access-Control-Allow-Origin" x = "*"
      /\ Header_Get "Access-Control-Allow-Methods" x
         = "GET, POST, PUT, DELETE, OPTIONS"
      /\ Header_Get "Access-Control-Allow-Headers" x
         = "Content-Type, x-access-token, x-admin-secret" in
  (Method r = "OPTIONS" ->
     allow (corsMiddleware h w r)
     /\ (status w = None -> status (corsMiddleware h w r) = Some 200)
     /\ forall h', corsMiddleware h' w r = corsMiddleware h w r)
  /\ (Method r <> "OPTIONS" ->
      exists w',
        corsMiddleware h w r = h w' r
        /\ allow w'
        /\ status w' = status w
        /\ forall k, k <> "Access-Control-Allow-Origin" ->
                     k <> "Access-Control-Allow-Methods" ->
                     k <> "Access-Control-Allow-Headers" ->
                     md_get (Header w') k = md_get (Header w) k).
Proof.
  intros allow.
  assert (Hallow : forall st,
             allow (mkResponseWriter
                      (header_set "Access-Control-Allow-Headers"
                         "Content-Type, x-access-token, x-admin-secret"
                         (header_set "Access-Control-Allow-Methods"
                            "GET, POST, PUT, DELETE, OPTIONS"
                            (header_set "Access-Control-Allow-Origin" "*"
                               (Header w)))) st)).
  { intros st. unfold allow, Header_Get. cbn [Header].
    rewrite header_get_set_same.
    rewrite (header_get_set_other "Access-Control-Allow-Headers"
               "Access-Control-Allow-Methods") by discriminate.
    rewrite header_get_set_same.
    rewrite (header_get_set_other "Access-Control-Allow-Headers"
               "Access-Control-Allow-Origin") by discriminate.
    rewrite (header_get_set_other "Access-Control-Allow-Methods"
               "Access-Control-Allow-Origin") by discriminate.
    rewrite header_get_set_same. repeat split. }
  split.
  - intros Hm. unfold corsMiddleware. rewrite Hm. cbn [String.eqb].
    change (String.eqb "OPTIONS" "OPTIONS") with true. cbv iota.
    unfold WriteHeader, Header_Set. cbn [status Header].
    split; [destruct (status w); apply Hallow |].
    split; [intros ->; reflexivity |].
    intros h'. reflexivity.
  - intros Hm. unfold corsMiddleware. apply String.eqb_neq in Hm. rewrite Hm.
    eexists. split; [reflexivity |].
    unfold Header_Set. cbn [status Header].
    split; [apply Hallow |]. split; [reflexivity |].
    intros k H1 H2 H3. now rewrite !header_get_set_other.
Qed.

(** ** The answers of ValidateLicense *)

Lemma license_stage_answers (sus : string) (w : Oracle)
  (req : ValidateRequest.t) (wd : World) :
  let lk := ValidateRequest.LicenseKey req in
  let pid := ValidateRequest.ProductId req in
  let h := ValidateRequest.Hwid req in
  let res := fst (license_stage sus w req wd) in
  (exists e, fault (tick w wd) = Some e
             /\ res = Err (status_Errorf Internal "db error: " e))
  \/ (fault (tick w wd) = None
      /\ find (license_matches lk pid) (licenses (store wd)) = None
      /\ res = negative "License not found")
  \/ (exists r,
        fault (tick w wd) = None
        /\ find (license_matches lk pid) (licenses (store wd)) = Some r
        /\ ((is_active r = false /\ res = negative sus)
            \/ (is_active r = true
                /\ (h = "" \/ hwid_unset r = true \/ hwid r = Some h)
                /\ res = authenticated)
            \/ (is_active r = true /\ h <> "" /\ hwid_unset r = false
                /\ hwid r <> Some h /\ res = negative "HWID mismatch"))).
Proof.
  intros lk pid h res. subst res. unfold license_stage. fold lk pid h.
  destruct (fault (tick w wd)) as [e |]; [left; eauto |].
  destruct (find (license_matches lk pid) (licenses (store wd))) as [r |];
    [| right; left; auto].
  right; right. exists r. split; [reflexivity |]. split; [reflexivity |].
  unfold locks, verdict. fold h.
  destruct (is_active r); [| left; auto]. right. cbn [negb andb].
  destruct (String.eqb h "") eqn:Eh.
  { apply String.eqb_eq in Eh. left. cbn [negb andb fst]. auto. }
  apply String.eqb_neq in Eh. cbn [negb andb].
  destruct (hwid_unset r) eqn:Eu; cbn [fst]; [left; auto |].
  destruct (hwid r) as [h' |] eqn:E'.
  - destruct (String.eqb h' h) eqn:Ehh.
    + apply String.eqb_eq in Ehh. subst h'. left. auto.
    + apply String.eqb_neq in Ehh. right. repeat split; auto. congruence.
  - unfold hwid_unset in Eu. rewrite E' in Eu. discriminate.
Qed.

(** [X19] The answers of [ValidateLicense] form a closed list: a call
    returns an Unauthenticated status with one of three texts, an Internal
    status "db error: ..." carrying the error of a round trip of this call
    that failed, or one of the four responses Authenticated (valid), and
    "License not found", "License is suspended", "HWID mismatch" (not
    valid); it never returns InvalidArgument or PermissionDenied. *)
Theorem X19_closed_list_of_answers
  (w : Oracle) (wd : World) (ctx : Context) (req : ValidateRequest.t) :
  let res := fst (run w (V2.ValidateLicense ctx req) wd) in
  res = Err (status_Error Unauthenticated "no metadata")
  \/ res = Err (status_Error Unauthenticated "missing x-access-token header")
  \/ res = Err (status_Error Unauthenticated "invalid or expired access token")
  \/ (exists e n,
        (n < 2)%nat
        /\ fault (w (List.length (trace wd) + n)%nat) = Some e
        /\ res = Err (status_Errorf Internal "db error: " e))
  \/ res = Ok (ValidateResponse.mk true "Authenticated")
  \/ res = Ok (ValidateResponse.mk false "License not found")
  \/ res = Ok (ValidateResponse.mk false "License is suspended")
  \/ res = Ok (ValidateResponse.mk false "HWID mismatch").
Proof.
  intros res. subst res. rewrite ValidateLicense_run.
  destruct (FromIncomingContext ctx) as [md |]; [| left; reflexivity].
  destruct (md_get md "x-access-token") as [| tok rest];
    [right; left; reflexivity |].
  rewrite RedeemToken_run.
  destruct (fault (tick w wd)) as [e |] eqn:Hf.
  { do 3 right. left. exists e, 0%nat. rewrite Nat.add_0_r.
    split; [lia |]. split; [exact Hf | reflexivity]. }
  destruct (rows _ _ =? 0); [do 2 right; left; reflexivity |].
  rewrite checkLicense_run.
  set (wd1 := mkWorld _ _).
  pose proof (license_stage_answers "License is suspended" w req wd1) as H.
  cbv zeta in H.
  destruct H as [(e & He & ->) | [(_ & _ & ->) | (r & _ & _ & H)]].
  - do 3 right. left. exists e, 1%nat. split; [lia |].
    split; [| reflexivity].
    unfold wd1 in He. rewrite tick_next in He. rewrite Nat.add_1_r. exact He.
  - do 5 right. left. reflexivity.
  - destruct H as [(_ & ->) | [(_ & _ & ->) | (_ & _ & _ & _ & ->)]].
    + do 6 right. left. reflexivity.
    + do 4 right. left. reflexivity.
    + do 7 right. reflexivity.
Qed.

(** [X20] A valid answer is earned: [ValidateLicense] answers valid
    only when the request carried a token whose delete reached the store
    and removed a live row, and the lookup found a row for the key and
    the product that is active and whose hwid is acceptable: no hwid was
    sent, or the row had none yet, or the row holds the hwid sent. *)
Theorem X20_valid_only_when_earned
  (w : Oracle) (wd : World) (ctx : Context) (req : ValidateRequest.t)
  (msg : string) :
  let res := run w (V2.ValidateLicense ctx req) wd in
  let lk := ValidateRequest.LicenseKey req in
  let pid := ValidateRequest.ProductId req in
  let h := ValidateRequest.Hwid req in
  fst res = Ok (ValidateResponse.mk true msg) ->
  msg = "Authenticated"
  /\ exists tok r,
       header_token ctx = Some tok
       /\ fst (run w (V2.RedeemToken tok) wd) = Ok tt
       /\ tokens_removed wd (snd res) <> 0
       /\ find (license_matches lk pid) (licenses (store wd)) = Some r
       /\ is_active r = true
       /\ (h = "" \/ hwid_unset r = true \/ hwid r = Some h).
Proof.
  intros res lk pid h Hvalid. subst res.
  destruct (header_token ctx) as [tok |] eqn:Ht.
  2:{ exfalso. rewrite ValidateLicense_run in Hvalid.
      unfold header_token in Ht.
      destruct (FromIncomingContext ctx) as [md |]; [| discriminate].
      destruct (md_get md "x-access-token"); discriminate. }
  assert (Hok : fst (run w (V2.RedeemToken tok) wd) = Ok tt).
  { rewrite (ValidateLicense_with_token _ _ _ _ _ Ht) in Hvalid.
    destruct (run w (V2.RedeemToken tok) wd) as [[[] | st] wd1];
      [reflexivity | discriminate]. }
  pose proof (RedeemToken_ok_inv _ _ _ Hok) as (_ & Hrows & _).
  rewrite (ValidateLicense_after_burn _ _ _ _ _ Ht Hok) in *.
  set (wd1 := mkWorld _ _) in *.
  pose proof (license_stage_answers "License is suspended" w req wd1) as H.
  cbv zeta in H. fold lk pid h in H.
  assert (Hremoved : tokens_removed wd
                       (snd (license_stage "License is suspended" w req wd1))
                     <> 0).
  { unfold tokens_removed.
    rewrite (proj1 (license_stage_tokens _ _ _ _)).
    unfold wd1. cbn [store access_tokens with_tokens].
    pose proof (length_filter_negb (token_live tok (now (tick w wd)))
                  (access_tokens (store wd))).
    unfold rows in Hrows. lia. }
  destruct H as [(e & _ & He) | [(_ & _ & He) | (r & _ & Hfind & H)]];
    try (rewrite He in Hvalid; discriminate).
  destruct H as [(_ & He) | [(Hact & Hh & He) | (_ & _ & _ & _ & He)]];
    try (rewrite He in Hvalid; discriminate).
  rewrite He in Hvalid. inversion Hvalid; subst msg.
  split; [reflexivity |]. exists tok, r. repeat split; auto.
Qed.

(** ** The frame of UpdateLicense *)

(** [X21] [UpdateLicense] that passed the admin check and reached the
    store writes one key only: the rows of every other key are as they
    were, tokens and API keys are untouched; when the key had no row one
    row with the supplied key, product and flag is appended, otherwise
    the number of rows is as it was. *)
Theorem X21_upsert_writes_one_key
  (environ : Environ) (w : Oracle) (wd : World) (ctx : Context)
  (req : UpdateLicenseRequest.t) :
  let lk := UpdateLicenseRequest.LicenseKey req in
  let pid := UpdateLicenseRequest.ProductId req in
  let a := UpdateLicenseRequest.IsActive req in
  let after := store (snd (run w (V2.UpdateLicense environ ctx req) wd)) in
  V2.checkAdmin environ ctx = None ->
  fault (tick w wd) = None ->
  access_tokens after = access_tokens (store wd)
  /\ api_keys after = api_keys (store wd)
  /\ (forall r, license_key r <> lk ->
        (In r (licenses after) <-> In r (licenses (store wd))))
  /\ (license_of lk (store wd) = None ->
      exists row,
        licenses after = (licenses (store wd) ++ [row])%list
        /\ license_key row = lk /\ product_id row = pid /\ is_active row = a)
  /\ (license_of lk (store wd) <> None ->
      List.length (licenses after) = List.length (licenses (store wd))).
Proof.
  intros lk pid a after Hadm Hf. subst after.
  rewrite (UpdateLicense_run _ _ _ _ _ Hadm), Hf. fold lk pid a.
  cbn [snd store perform]. unfold upsert_license, license_of.
  rewrite existsb_find.
  destruct (find (has_key lk) (licenses (store wd))) as [r0 |];
    cbn [snd access_tokens api_keys licenses with_licenses].
  - split; [reflexivity |]. split; [reflexivity |]. split.
    { intros r Hne. rewrite in_map_iff. split.
      - intros (y & Hy & Hin). unfold overwrite in Hy.
        destruct (has_key lk y) eqn:K; [| now subst y].
        subst r. cbn [license_key] in Hne.
        apply has_key_eq in K. contradiction.
      - intros Hin. exists r. split; [| exact Hin].
        unfold overwrite, has_key.
        destruct (String.eqb (license_key r) lk) eqn:K; [| reflexivity].
        apply String.eqb_eq in K. contradiction. }
    split; [discriminate |]. intros _. apply length_map.
  - split; [reflexivity |]. split; [reflexivity |]. split.
    { intros r Hne. rewrite in_app_iff. split; [| auto].
      intros [Hin | [<- | []]]; [exact Hin |].
      cbn [license_key] in Hne. contradiction. }
    split; [| intros H; contradiction].
    intros _. eexists. split; [reflexivity |]. repeat split.
Qed.

(** ** The further properties at work on the small installation *)

Lemma calm_never_fails : no_faults calm.
Proof.
  intros n. reflexivity.
Defined.

Lemma steady_never_fails : no_faults steady.
Proof.
  intros n. reflexivity.
Defined.

Lemma locked_unique : unique_tokens (store locked_world).
Proof.
  unfold unique_tokens. simpl.
  repeat (constructor; [simpl; intuition discriminate |]). constructor.
Defined.

Lemma locked_unique_keys : unique_license_keys (store locked_world).
Proof.
  unfold unique_license_keys. simpl.
  repeat (constructor; [simpl; intuition discriminate |]). constructor.
Defined.

Lemma t1_stays_live : stays_live steady "t1" (store locked_world).
Proof.
  exists t1_row. split; [left; reflexivity |]. split; [reflexivity |].
  intros n. reflexivity.
Defined.

Lemma t2_stays_live : stays_live steady "t2" (store locked_world).
Proof.
  exists (mkAccessToken "t2" 0 token_ttl).
  split; [right; left; reflexivity |]. split; [reflexivity |].
  intros n. reflexivity.
Defined.

Lemma X1_witness :
  In t1_row (access_tokens (store (snd (run calm V2.cleanupTick demo_world)))).
Proof.
  apply (proj1 (proj2 (X1_sweep_pass calm demo_world)) t1_row "t1" second).
  - vm_compute. discriminate.
  - left. reflexivity.
  - reflexivity.
Defined.

Lemma X3_witness :
  fst (run calm (V2.RedeemToken "t1") (snd (run calm V2.cleanupTick demo_world)))
  = fst (run calm (V2.RedeemToken "t1")
             (mkWorld (store demo_world)
                      (trace (snd (run calm V2.cleanupTick demo_world))))).
Proof.
  apply (X3_sweep_then_redeem calm demo_world "t1").
  vm_compute. discriminate.
Defined.

Lemma X4_witness :
  let final := fst (run_service steady
                      [Sweeper; Caller 1; Sweeper; Caller 0; Caller 2]%nat
                      (repeat (V2.RedeemToken "t1") 3) demo_world) in
  count succeeded final = 1%nat
  /\ count (failed_with Unauthenticated) final = 2%nat.
Proof.
  apply (X4_redemption_beside_sweeper steady demo_world "t1" 3
           [Sweeper; Caller 1; Sweeper; Caller 0; Caller 2]%nat demo_unique).
  - exact steady_never_fails.
  - exists t1_row. split; [left; reflexivity |]. split; [reflexivity |].
    intros n. reflexivity.
  - lia.
  - reflexivity.
Defined.

Lemma X5_witness :
  (fst (run calm (V2.RedeemToken "t1") demo_world) = Ok tt <-> 0 < token_ttl)
  /\ fst (run late (V2.RedeemToken "t1") demo_world)
     = Err unauthenticated_token.
Proof.
  split.
  - apply (X5_redeem_iff_before_expiry calm demo_world t1_row demo_unique).
    + left. reflexivity.
    + reflexivity.
  - apply (X5_redeem_iff_before_expiry late demo_world t1_row demo_unique).
    + left. reflexivity.
    + reflexivity.
    + vm_compute. discriminate.
Defined.

Lemma X6_witness :
  In (mkAccessToken "t2" 0 token_ttl)
     (access_tokens
        (store (snd (run calm (V2.ValidateLicense (with_token "t1")
                                 (ValidateRequest.mk "LIC-1" "PROD-A" "A"))
                         locked_world)))).
Proof.
  apply (proj1 (proj2 (X6_other_tokens_untouched calm locked_world
                         (with_token "t1")
                         (ValidateRequest.mk "LIC-1" "PROD-A" "A")))).
  - right. left. reflexivity.
  - intros H. discriminate H.
Defined.


Lemma X8_witness :
  fst (run calm (V2.ValidateLicense (with_token "t1")
                   (ValidateRequest.mk "LIC-3" "PROD-A" "")) locked_world)
  = authenticated.
Proof.
  apply (X8_no_hwid_no_check calm locked_world (with_token "t1")
           (ValidateRequest.mk "LIC-3" "PROD-A" "") "t1"); reflexivity.
Defined.

Lemma X9_witness :
  let first := run calm (V2.ValidateLicense (with_token "t1")
                           (ValidateRequest.mk "LIC-1" "PROD-A" "A"))
                   locked_world in
  let second := run calm (V2.ValidateLicense (with_token "t2")
                            (ValidateRequest.mk "LIC-1" "PROD-A" "B"))
                    (snd first) in
  fst first = authenticated
  /\ fst second = negative "HWID mismatch"
  /\ licenses (store (snd second)) = licenses (store (snd first))
  /\ find (license_matches "LIC-1" "PROD-A") (licenses (store (snd second)))
     = Some (mkLicense "LIC-1" "PROD-A" true (Some "A")).
Proof.
  apply (X9_lock_then_validate calm locked_world (with_token "t1")
           (with_token "t2") "LIC-1" "PROD-A" "A" "B" "t1" "t2" lic1);
    try reflexivity.
  - exact calm_never_fails.
  - intros H. discriminate H.
  - intros H. discriminate H.
Defined.

Lemma X10_witness :
  let written := snd (run calm (V2.UpdateLicense admin_environ
                                  (with_secret ["s3cret"])
                                  (UpdateLicenseRequest.mk "LIC-9" "PROD-Z" false))
                          locked_world) in
  fst (run calm (V2.ValidateLicense (with_token "t1")
                   (ValidateRequest.mk "LIC-9" "PROD-Z" "")) written)
  = negative "License is suspended".
Proof.
  apply (X10_upsert_then_validate admin_environ calm locked_world
           (with_secret ["s3cret"]) (with_token "t1")
           "LIC-9" "PROD-Z" false "t1"); reflexivity.
Defined.

Lemma X11_witness :
  let res := run calm (V2.DeleteLicense admin_environ (with_secret ["s3cret"])
                         (DeleteLicenseRequest.mk "LIC-1")) locked_world in
  fst res = Ok tt
  /\ fst (run calm (V2.ValidateLicense (with_token "t1")
                      (ValidateRequest.mk "LIC-1" "PROD-A" "A")) (snd res))
     = negative "License not found".
Proof.
  destruct (X11_delete_license admin_environ calm locked_world
              (with_secret ["s3cret"]) (DeleteLicenseRequest.mk "LIC-1")
              eq_refl eq_refl) as (H1 & _ & _ & _ & _ & H6).
  split; [exact H1 |].
  apply (H6 (with_token "t1") "PROD-A" "A" "t1"); reflexivity.
Defined.

Lemma X12_witness :
  run calm (V2.UpdateLicense admin_environ (with_secret ["guess"; "s3cret"])
              (UpdateLicenseRequest.mk "LIC-1" "PROD-A" false)) locked_world
  = (Err (status_Error PermissionDenied "invalid admin secret"), locked_world).
Proof.
  apply (proj1 (X12_admin_failure_changes_nothing admin_environ calm
                  locked_world (with_secret ["guess"; "s3cret"])
                  (UpdateLicenseRequest.mk "LIC-1" "PROD-A" false)
                  (DeleteLicenseRequest.mk "LIC-1"))).
  reflexivity.
Defined.

Lemma X13_witness :
  store (snd (run calm (V2.GetAuthToken (mkContext None)
                          (GetTokenRequest.mk "stolen-key")) locked_world))
  = store locked_world.
Proof.
  apply (proj1 (X13_issue_fails_closed calm locked_world (mkContext None)
                  (GetTokenRequest.mk "stolen-key"))).
  reflexivity.
Defined.

Lemma X14_witness :
  fst (run calm (V1.GetAuthToken (mkContext None) tt)
           (mkWorld (mkStore [] [] []) []))
  = Ok (AuthTokenResponse.mk "c0ffee" 30).
Proof.
  apply (proj1 (proj2 (X14_earlier_revision_issues_to_anyone calm
                         (mkWorld (mkStore [] [] []) []) (mkContext None))));
    reflexivity.
Defined.

Lemma X15_witness :
  unique_license_keys
    (store (snd (run calm (V2.UpdateLicense admin_environ
                             (with_secret ["s3cret"])
                             (UpdateLicenseRequest.mk "LIC-1" "PROD-B" true))
                     locked_world))).
Proof.
  apply (proj1 (X15_one_row_per_license_key calm locked_world
                  locked_unique_keys)
           admin_environ (with_secret ["s3cret"])
           (ValidateRequest.mk "LIC-1" "PROD-A" "")
           (UpdateLicenseRequest.mk "LIC-1" "PROD-B" true)
           (DeleteLicenseRequest.mk "LIC-1")
           (GetTokenRequest.mk "valid-key")).
Defined.

Lemma X16_witness :
  let res := run_schedule steady [0; 1; 0; 1; 0; 1]%nat
               [V2.ValidateLicense (with_token "t1")
                  (ValidateRequest.mk "LIC-1" "PROD-A" "A");
                V2.ValidateLicense (with_token "t2")
                  (ValidateRequest.mk "LIC-1" "PROD-A" "B")]
               locked_world in
  fst res = [Ret authenticated; Ret authenticated]
  /\ find (license_matches "LIC-1" "PROD-A") (licenses (store (snd res)))
     = Some (mkLicense "LIC-1" "PROD-A" true (Some "B")).
Proof.
  apply (X16_concurrent_first_use steady locked_world (with_token "t1")
           (with_token "t2") "LIC-1" "PROD-A" "A" "B" "t1" "t2" lic1);
    try reflexivity.
  - intros H. discriminate H.
  - exact steady_never_fails.
  - exact t1_stays_live.
  - exact t2_stays_live.
  - intros H. discriminate H.
  - intros H. discriminate H.
Defined.

Lemma X17_witness :
  let matcher := customMatcher (fun s => s) (fun k => ("", false)) in
  matcher "X-Access-Token" = ("x-access-token", true)
  /\ matcher "Content-Type" = ("", false).
Proof.
  destruct (X17_header_names_in_any_casing (fun s => s) (fun k => ("", false)))
    as [Hany Hother].
  split.
  - apply (proj1 (Hany [true; false; true; false; false; false; false;
                        false; false; true])).
  - apply (Hother "Content-Type" eq_refl).
    + intros mask H. apply (f_equal lower_bytes) in H.
      rewrite (proj2 (recase_lowered mask "x-access-token" eq_refl)) in H.
      discriminate H.
    + intros mask H. apply (f_equal lower_bytes) in H.
      rewrite (proj2 (recase_lowered mask "x-admin-secret" eq_refl)) in H.
      discriminate H.
Defined.

Lemma X18_witness :
  let w := mkResponseWriter [("Access-Control-Allow-Origin", ["nobody"])] None in
  status (corsMiddleware (fun x _ => WriteHeader 404 x) w (mkRequest "OPTIONS"))
  = Some 200
  /\ Header_Get "Access-Control-Allow-Origin"
       (corsMiddleware (fun x _ => WriteHeader 404 x) w (mkRequest "OPTIONS"))
     = "*".
Proof.
  destruct (X18_cors_preflight_and_headers (fun x _ => WriteHeader 404 x)
              (mkResponseWriter
                 [("Access-Control-Allow-Origin", ["nobody"])] None)
              (mkRequest "OPTIONS")) as [Hopt _].
  destruct (Hopt eq_refl) as ((Ho & _) & Hst & _).
  split; [apply Hst; reflexivity | exact Ho].
Defined.

Lemma X20_witness :
  exists tok r,
    header_token (with_token "t1") = Some tok
    /\ fst (run calm (V2.RedeemToken tok) locked_world) = Ok tt
    /\ find (license_matches "LIC-3" "PROD-A") (licenses (store locked_world))
       = Some r
    /\ is_active r = true.
Proof.
  destruct (X20_valid_only_when_earned calm locked_world (with_token "t1")
              (ValidateRequest.mk "LIC-3" "PROD-A" "HW-1") "Authenticated"
              eq_refl) as (_ & tok & r & H1 & H2 & _ & H4 & H5 & _).
  exists tok, r. repeat split; assumption.
Defined.

Lemma X21_witness :
  let after := store (snd (run calm (V2.UpdateLicense admin_environ
                                       (with_secret ["s3cret"])
                                       (UpdateLicenseRequest.mk
                                          "LIC-9" "PROD-Z" true))
                               locked_world)) in
  access_tokens after = access_tokens (store locked_world)
  /\ (In lic3 (licenses after) <-> In lic3 (licenses (store locked_world))).
Proof.
  destruct (X21_upsert_writes_one_key admin_environ calm locked_world
              (with_secret ["s3cret"])
              (UpdateLicenseRequest.mk "LIC-9" "PROD-Z" true)
              eq_refl eq_refl) as (H1 & _ & H3 & _).
  split; [exact H1 |]. apply (H3 lic3). intros H. discriminate H.
Defined.
